(** * Chat-export bot (bot.py): extraction, merge, presentation, chunking

    A shallow embedding of the pure core of [bot.py] and the properties its
    specification states about it.

    Python [str] values are lists of Unicode code points, Python [int]s are
    [Z], the participants dictionary is an insertion-ordered association
    list (the bot iterates over its values), mention sets are [gset]s, and
    an exception is the [None] of the option monad.  Replies sent through
    the Telegram API are collected in a list of actions. *)

From Stdlib Require Import ZArith NArith Lia.
From stdpp Require Import base option list gmap strings.

(** ** Text *)

(** A character is its Unicode code point. *)
Definition char := N.
Definition str := list char.

(** Source literals are written as UTF-8 text and decoded to code points. *)
Fixpoint utf8_decode (bs : list N) : str :=
  match bs with
  | [] => []
  | b :: rest =>
    if (b <? 0x80)%N then b :: utf8_decode rest
    else if (b <? 0xE0)%N then
      match rest with
      | b1 :: rest' =>
        N.lor (N.shiftl (N.land b 0x1F) 6) (N.land b1 0x3F) :: utf8_decode rest'
      | _ => []
      end
    else if (b <? 0xF0)%N then
      match rest with
      | b1 :: b2 :: rest' =>
        N.lor (N.shiftl (N.land b 0x0F) 12)
          (N.lor (N.shiftl (N.land b1 0x3F) 6) (N.land b2 0x3F))
          :: utf8_decode rest'
      | _ => []
      end
    else
      match rest with
      | b1 :: b2 :: b3 :: rest' =>
        N.lor (N.shiftl (N.land b 0x07) 18)
          (N.lor (N.shiftl (N.land b1 0x3F) 12)
             (N.lor (N.shiftl (N.land b2 0x3F) 6) (N.land b3 0x3F)))
          :: utf8_decode rest'
      | _ => []
      end
  end.

Definition utf8 (s : string) : str :=
  utf8_decode (map Ascii.N_of_ascii (String.list_ascii_of_string s)).

Definition LF : char := 10%N.
Definition CR : char := 13%N.
Definition SPACE : char := 32%N.
Definition AT : char := 64%N.
Definition UNDERSCORE : char := 95%N.

Definition in_range (lo hi c : char) : bool := ((lo <=? c) && (c <=? hi))%N.
Arguments in_range (lo hi c)%_N.

(** [len(s)] as a Python integer. *)
Definition len {A} (l : list A) : Z := Z.of_nat (length l).

(** Truthiness of a string: [if s:]. *)
Definition nonempty (s : str) : bool :=
  match s with [] => false | _ => true end.

(** [a or b] on two strings. *)
Definition str_or (a b : str) : str := if nonempty a then a else b.

(** [str.isspace] on one character: the whitespace set of CPython
    ([_PyUnicode_IsWhitespace]), used by [strip()] and [split()]. *)
Definition is_space (c : char) : bool :=
  in_range 0x09 0x0D c || in_range 0x1C 0x20 c
  || (c =? 0x85)%N || (c =? 0xA0)%N || (c =? 0x1680)%N
  || in_range 0x2000 0x200A c || (c =? 0x2028)%N || (c =? 0x2029)%N
  || (c =? 0x202F)%N || (c =? 0x205F)%N || (c =? 0x3000)%N.

(** The line boundaries of [str.splitlines]. *)
Definition is_linebreak (c : char) : bool :=
  in_range 0x0A 0x0D c || in_range 0x1C 0x1E c
  || (c =? 0x85)%N || (c =? 0x2028)%N || (c =? 0x2029)%N.

Fixpoint lstrip (s : str) : str :=
  match s with
  | [] => []
  | c :: rest => if is_space c then lstrip rest else s
  end.

Definition rstrip (s : str) : str := rev (lstrip (rev s)).

(** [s.strip()] *)
Definition strip (s : str) : str := rstrip (lstrip s).

(** [s.split()]: the maximal runs of non-whitespace characters. *)
Fixpoint split (s : str) : list str :=
  match s with
  | [] => []
  | c :: rest =>
    if is_space c then split rest
    else match rest with
         | [] => [[c]]
         | c' :: _ =>
           if is_space c' then [c] :: split rest
           else match split rest with
                | w :: ws => (c :: w) :: ws
                | [] => [[c]]
                end
         end
  end.

(** [sep.join(parts)] *)
Fixpoint join (sep : str) (parts : list str) : str :=
  match parts with
  | [] => []
  | [p] => p
  | p :: ps => p ++ sep ++ join sep ps
  end.

(** [text.splitlines(True)]: the lines of [text], terminators kept; a
    carriage return followed by a line feed is one terminator. *)
Fixpoint splitlines (s : str) : list str :=
  match s with
  | [] => []
  | c :: rest =>
    if is_linebreak c then
      match rest with
      | c' :: rest' =>
        if (c =? CR)%N && (c' =? LF)%N then [c; c'] :: splitlines rest'
        else [c] :: splitlines rest
      | [] => [[c]]
      end
    else match splitlines rest with
         | line :: lines => (c :: line) :: lines
         | [] => [[c]]
         end
  end.

Fixpoint startswith (prefix s : str) : bool :=
  match prefix, s with
  | [], _ => true
  | p :: prefix', c :: s' => (p =? c)%N && startswith prefix' s'
  | _ :: _, [] => false
  end.

(** [s.endswith(suffix)] *)
Definition endswith (suffix s : str) : bool := startswith (rev suffix) (rev s).

(** [needle in hay] *)
Fixpoint contains (needle hay : str) : bool :=
  startswith needle hay
  || match hay with
     | [] => false
     | _ :: hay' => contains needle hay'
     end.

(** Comparison of strings with [<]: lexicographic on code points. *)
Fixpoint str_ltb (a b : str) : bool :=
  match a, b with
  | _, [] => false
  | [], _ :: _ => true
  | x :: a', y :: b' => (x <? y)%N || ((x =? y)%N && str_ltb a' b')
  end.

Definition digit_char (d : N) : char := (48 + d)%N.
Arguments digit_char d%_N.

Fixpoint uint_digits (u : Decimal.uint) : str :=
  match u with
  | Decimal.Nil => []
  | Decimal.D0 u' => digit_char 0 :: uint_digits u'
  | Decimal.D1 u' => digit_char 1 :: uint_digits u'
  | Decimal.D2 u' => digit_char 2 :: uint_digits u'
  | Decimal.D3 u' => digit_char 3 :: uint_digits u'
  | Decimal.D4 u' => digit_char 4 :: uint_digits u'
  | Decimal.D5 u' => digit_char 5 :: uint_digits u'
  | Decimal.D6 u' => digit_char 6 :: uint_digits u'
  | Decimal.D7 u' => digit_char 7 :: uint_digits u'
  | Decimal.D8 u' => digit_char 8 :: uint_digits u'
  | Decimal.D9 u' => digit_char 9 :: uint_digits u'
  end.

(** [str(n)] for an integer. *)
Definition str_of_int (z : Z) : str :=
  match Z.to_int z with
  | Decimal.Pos u => uint_digits u
  | Decimal.Neg u => utf8 "-" ++ uint_digits u
  end.

Definition str_of_nat (n : nat) : str := str_of_int (Z.of_nat n).

(** ** Values decoded by [json.loads] *)

(** A float is carried by its [repr()] text, which determines it. *)
#[local] Unset Elimination Schemes.
Inductive json :=
| JNull
| JBool (b : bool)
| JInt (z : Z)
| JFloat (repr : str)
| JStr (s : str)
| JList (items : list json)
| JObj (fields : list (str * json)).
#[local] Set Elimination Schemes.

(** Truthiness of a value, as tested by [or], [not] and [if]. *)
Definition truthy (x : json) : bool :=
  match x with
  | JNull => false
  | JBool b => b
  | JInt z => negb (z =? 0)%Z
  | JFloat r => negb (bool_decide (r = utf8 "0.0") || bool_decide (r = utf8 "-0.0"))
  | JStr s => nonempty s
  | JList items => match items with [] => false | _ => true end
  | JObj fields => match fields with [] => false | _ => true end
  end.

(** [a or b] *)
Definition py_or (a b : json) : json := if truthy a then a else b.

(** [m.get(key)]: the value bound to [key], [None] when there is none. *)
Fixpoint dict_get (key : str) (fields : list (str * json)) : json :=
  match fields with
  | [] => JNull
  | (k, v) :: rest => if bool_decide (k = key) then v else dict_get key rest
  end.

(** ** The parts of the Python runtime the bot relies on

    Case mapping and the alphanumeric class come from the Unicode character
    database, and [repr] of containers from the interpreter; they are taken
    as given.  [str.lower] maps every character to at least one character:
    the empty string, and only it, lowers to the empty string. *)
Class PyRuntime := {
  str_lower : str → str;
  str_lower_nil : ∀ s, str_lower s = [] ↔ s = [];
  char_isalnum : char → bool;
  py_repr : json → str;
}.

(** *** A runtime for Basic Latin and Cyrillic text

    Used to run the bot on sample inputs below. *)

Definition basic_lower (c : char) : char :=
  if in_range 0x41 0x5A c then (c + 32)%N          (* A-Z *)
  else if in_range 0x410 0x42F c then (c + 32)%N   (* А-Я *)
  else if in_range 0x400 0x40F c then (c + 80)%N   (* Ѐ-Џ *)
  else c.

Definition basic_isalnum (c : char) : bool :=
  in_range 0x30 0x39 c || in_range 0x41 0x5A c || in_range 0x61 0x7A c
  || in_range 0x400 0x481 c || in_range 0x48A 0x52F c.

Definition hex_digit (d : N) : char :=
  if (d <? 10)%N then (48 + d)%N else (87 + d)%N.

Definition basic_escape (quote : char) (c : char) : str :=
  if (c =? 0x5C)%N then utf8 "\\"
  else if (c =? quote)%N then [0x5C%N; c]
  else if (c =? 0x0A)%N then utf8 "\n"
  else if (c =? 0x0D)%N then utf8 "\r"
  else if (c =? 0x09)%N then utf8 "\t"
  else if (c <? 0x20)%N || (c =? 0x7F)%N
       then utf8 "\x" ++ [hex_digit (c / 16); hex_digit (c mod 16)]
  else [c].

Definition basic_repr_str (s : str) : str :=
  let quote : char :=
    if contains [0x27%N] s && negb (contains [0x22%N] s) then 0x22%N else 0x27%N in
  [quote] ++ concat (map (basic_escape quote) s) ++ [quote].

Fixpoint basic_repr (x : json) : str :=
  match x with
  | JNull => utf8 "None"
  | JBool b => if b then utf8 "True" else utf8 "False"
  | JInt z => str_of_int z
  | JFloat r => r
  | JStr s => basic_repr_str s
  | JList items =>
    utf8 "[" ++ join (utf8 ", ") (map basic_repr items) ++ utf8 "]"
  | JObj fields =>
    utf8 "{"
    ++ join (utf8 ", ")
         (map (fun kv => basic_repr_str (fst kv) ++ utf8 ": " ++ basic_repr (snd kv))
              fields)
    ++ utf8 "}"
  end.

Definition basic_runtime : PyRuntime :=
  {| str_lower := map basic_lower;
     str_lower_nil := fun s =>
       conj (map_eq_nil basic_lower s) (fun H => f_equal (map basic_lower) H);
     char_isalnum := basic_isalnum;
     py_repr := basic_repr |}.

(** ** Constants of the bot *)

Definition MAX_FILES : Z := 10.
Definition LIST_THRESHOLD : Z := 50.
Definition TELEGRAM_MSG_LIMIT : Z := 4096.

(** ** Participants *)

(** The record stored for a participant: a dict with these five keys. *)
Record participant := {
  export_date : str;
  username : str;
  first_name : str;
  last_name : str;
  bio : str;
}.

(** [Dict[str, Dict[str, str]]]: keys in insertion order, each bound once. *)
Definition participants_dict := list (str * participant).

Fixpoint dict_lookup (key : str) (d : participants_dict) : option participant :=
  match d with
  | [] => None
  | (k, v) :: rest => if bool_decide (k = key) then Some v else dict_lookup key rest
  end.

(** [d[key] = value]: a bound key keeps its place, a new key goes last. *)
Fixpoint dict_set (key : str) (value : participant) (d : participants_dict)
  : participants_dict :=
  match d with
  | [] => [(key, value)]
  | (k, v) :: rest =>
    if bool_decide (k = key) then (k, value) :: rest
    else (k, v) :: dict_set key value rest
  end.

(** [d.update(other)] *)
Definition dict_update (d other : participants_dict) : participants_dict :=
  fold_left (fun acc kv => dict_set kv.1 kv.2 acc) other d.

(** [list(d.values())] *)
Definition dict_values (d : participants_dict) : list participant := map snd d.

(** ** Chunking of a long reply *)

(** The body of the loop of [chunk_text], on the pair [(chunks, cur)]. *)
Definition chunk_step (limit : Z) (st : list str * str) (line : str)
  : list str * str :=
  let '(chunks, cur) := st in
  if (len cur + len line >? limit - 50)%Z
  then (chunks ++ [cur], line)
  else (chunks, cur ++ line).

Definition chunk_finish (st : list str * str) : list str :=
  let '(chunks, cur) := st in
  if nonempty cur then chunks ++ [cur] else chunks.

Definition chunk_text (text : str) (limit : Z) : list str :=
  chunk_finish (fold_left (chunk_step limit) (splitlines text) ([], [])).

(** ** The mention pattern

    [MENTION_RE = (?<!\w)@([A-Za-z0-9_]{5,32})] *)

(** [[A-Za-z0-9_]] *)
Definition is_handle_char (c : char) : bool :=
  in_range 0x41 0x5A c || in_range 0x61 0x7A c || in_range 0x30 0x39 c
  || (c =? UNDERSCORE)%N.

(** The greedy [{..,n}]: the longest run of handle characters, [n] at most. *)
Fixpoint take_handle (n : nat) (s : str) : str :=
  match n, s with
  | S n', c :: rest => if is_handle_char c then c :: take_handle n' rest else []
  | _, _ => []
  end.

Section Bot.
Context `{rt : PyRuntime}.

(** [\w] of a [str] pattern: alphanumeric or underscore. *)
Definition is_word_char (c : char) : bool :=
  char_isalnum c || (c =? UNDERSCORE)%N.

(** [(?<!\w)] given the character before the position, if there is one. *)
Definition lookbehind_ok (prev : option char) : bool :=
  match prev with
  | Some p => negb (is_word_char p)
  | None => true
  end.

(** The pattern tried at the position where [s] starts: the captured group
    of the match, when there is one. *)
Definition match_at (prev : option char) (s : str) : option str :=
  match s with
  | c :: rest =>
    if (c =? AT)%N && lookbehind_ok prev then
      let group := take_handle 32 rest in
      if (5 <=? length group)%nat then Some group else None
    else None
  | [] => None
  end.

(** [MENTION_RE.finditer]: the groups of the matches found from left to
    right, the search resuming at the end of each match.  [skip] counts the
    characters of the current match still to be passed over. *)
Fixpoint finditer (prev : option char) (skip : nat) (s : str) : list str :=
  match s with
  | [] => []
  | c :: rest =>
    match skip with
    | S skip' => finditer (Some c) skip' rest
    | O =>
      match match_at prev s with
      | Some group => group :: finditer (Some c) (length group) rest
      | None => finditer (Some c) 0 rest
      end
    end
  end.

(** [str(x)] *)
Definition py_str (x : json) : str :=
  match x with
  | JNull => utf8 "None"
  | JBool b => if b then utf8 "True" else utf8 "False"
  | JInt z => str_of_int z
  | JFloat r => r
  | JStr s => s
  | JList _ | JObj _ => py_repr x
  end.

Definition _safe_str (x : json) : str :=
  match x with
  | JNull => []
  | _ => strip (py_str x)
  end.

(** [None] stands for the [IndexError] of [parts[0]]. *)
Definition _split_name (full_name : str) : option (str * str) :=
  let full_name := _safe_str (JStr full_name) in
  if negb (nonempty full_name) then Some ([], [])
  else
    match split full_name with
    | [] => None
    | [p] => Some (p, [])
    | p :: ps => Some (p, join [SPACE] ps)
    end.

Definition _is_deleted_account (name user_id : str) : bool :=
  let n := str_lower (_safe_str (JStr name)) in
  if contains (utf8 "deleted account") n then true
  else if contains (utf8 "удал") n && contains (utf8 "аккаунт") n then true
  else if bool_decide (n = utf8 "deleted") then true
  else false.

Definition _make_user_key (user_id username first_name last_name : str) : str :=
  if nonempty user_id then utf8 "id:" ++ user_id
  else if nonempty username then utf8 "u:" ++ str_lower username
  else utf8 "n:" ++ str_lower first_name ++ utf8 "|" ++ str_lower last_name.

(** [text or ""] covers an absent text. *)
Definition extract_mentions_from_text (text : option str) : gset str :=
  list_to_set (map str_lower (finditer None 0 (default [] text))).

(** ** The structured (JSON) export *)

Definition extraction := (str * participants_dict * gset str)%type.

(** One segment of a [text] given as a list. *)
Definition segment_text (item : json) : str :=
  match item with
  | JStr s => s
  | JObj fields => _safe_str (dict_get (utf8 "text") fields)
  | _ => []
  end.

Definition joined_text (text_field : list json) : str :=
  fold_left (fun joined item => joined ++ segment_text item) text_field [].

Definition message_mentions (m : list (str * json)) (mentions : gset str)
  : gset str :=
  match dict_get (utf8 "text") m with
  | JStr s => mentions ∪ extract_mentions_from_text (Some s)
  | JList items => mentions ∪ extract_mentions_from_text (Some (joined_text items))
  | _ => mentions
  end.

Definition resolve_from_name (m : list (str * json)) : str :=
  _safe_str (py_or (py_or (py_or (dict_get (utf8 "from") m)
                                 (dict_get (utf8 "actor") m))
                          (dict_get (utf8 "sender") m))
                   (JStr [])).

Definition resolve_from_id (m : list (str * json)) : str :=
  _safe_str (py_or (py_or (py_or (dict_get (utf8 "from_id") m)
                                 (dict_get (utf8 "actor_id") m))
                          (dict_get (utf8 "sender_id") m))
                   (JStr [])).

Definition resolve_username (m : list (str * json)) : str :=
  _safe_str (py_or (py_or (dict_get (utf8 "username") m)
                          (dict_get (utf8 "from_username") m))
                   (JStr [])).

(** The body of the loop over the messages, on [(participants, mentions)]. *)
Definition process_message (export_date : str) (m : json)
    (st : participants_dict * gset str)
  : option (participants_dict * gset str) :=
  match m with
  | JObj m =>
    let participants := st.1 in
    let mentions := message_mentions m st.2 in
    let from_name := resolve_from_name m in
    let from_id := resolve_from_id m in
    let username := resolve_username m in
    let first_name := _safe_str (dict_get (utf8 "first_name") m) in
    let last_name := _safe_str (dict_get (utf8 "last_name") m) in
    '(first_name, last_name) ←
      (if negb (nonempty first_name) && negb (nonempty last_name)
          && nonempty from_name
       then '(fn, ln) ← _split_name from_name;
            Some (str_or first_name fn, str_or last_name ln)
       else Some (first_name, last_name));
    if negb (nonempty (str_or from_id (str_or username (str_or first_name
                         (str_or last_name from_name)))))
    then Some (participants, mentions)
    else if _is_deleted_account from_name from_id
    then Some (participants, mentions)
    else
      let key := _make_user_key from_id username first_name last_name in
      Some (dict_set key
              {| export_date := export_date;
                 username := username;
                 first_name := first_name;
                 last_name := last_name;
                 bio := utf8 "N/A" |}
              participants,
            mentions)
  | _ => Some st
  end.

Fixpoint for_messages (export_date : str) (messages : list json)
    (st : participants_dict * gset str)
  : option (participants_dict * gset str) :=
  match messages with
  | [] => Some st
  | m :: rest =>
    st' ← process_message export_date m st;
    for_messages export_date rest st'
  end.

(** [now] is [datetime.now(timezone.utc).isoformat()]; [None] stands for
    the [AttributeError] of [data.get] on a document that is not a dict. *)
Definition extract_from_json (now : str) (data : json) : option extraction :=
  match data with
  | JObj data =>
    let export_date := str_or (_safe_str (dict_get (utf8 "export_date") data)) now in
    match dict_get (utf8 "messages") data with
    | JList messages =>
      '(participants, mentions) ← for_messages export_date messages ([], ∅);
      Some (export_date, participants, mentions)
    | _ => Some (export_date, [], ∅)
    end
  | _ => None
  end.

(** ** The HTML export *)

(** What the bot reads of the parsed document: the rendered texts of the
    elements selected by [.from_name] and by [.text], in document order. *)
Record soup := {
  select_from_name : list str;
  select_text : list str;
}.

Definition process_name_tag (export_date : str) (tag_text : str)
    (participants : participants_dict) : option participants_dict :=
  let from_name := _safe_str (JStr tag_text) in
  if negb (nonempty from_name) then Some participants
  else if _is_deleted_account from_name [] then Some participants
  else
    '(fn, ln) ← _split_name from_name;
    let key := _make_user_key [] [] fn ln in
    Some (dict_set key
            {| export_date := export_date;
               username := [];
               first_name := fn;
               last_name := ln;
               bio := utf8 "N/A" |}
            participants).

Fixpoint for_name_tags (export_date : str) (tags : list str)
    (participants : participants_dict) : option participants_dict :=
  match tags with
  | [] => Some participants
  | t :: rest =>
    participants' ← process_name_tag export_date t participants;
    for_name_tags export_date rest participants'
  end.

Definition extract_from_html (now : str) (html : soup) : option extraction :=
  let export_date := now in
  participants ← for_name_tags export_date (select_from_name html) [];
  let mentions :=
    fold_left
      (fun mentions t =>
         mentions ∪ extract_mentions_from_text (Some (_safe_str (JStr t))))
      (select_text html) ∅ in
  Some (export_date, participants, mentions).

(** ** The spreadsheet *)

(** The workbook handed to [wb.save]: its sheet title and rows of cells. *)
Record workbook := {
  title : str;
  cells : list (list str);
}.

Definition headers : list str :=
  [utf8 "export_date"; utf8 "username"; utf8 "first_name"; utf8 "last_name";
   utf8 "bio"].

Definition row_cells (r : participant) : list str :=
  [export_date r; username r; first_name r; last_name r; bio r].

(** [ILLEGAL_CHARACTERS_RE] of openpyxl, [[\000-\010]|[\013-\014]|[\016-\037]]:
    the control characters other than tab, line feed and carriage return. *)
Definition is_illegal_char (c : char) : bool :=
  in_range 0x00 0x08 c || in_range 0x0B 0x0C c || in_range 0x0E 0x1F c.

(** [value[:32767]]: a cell keeps at most 32767 characters. *)
Definition cell_cut (value : str) : str := take (N.to_nat 32767) value.

(** [Cell.check_string] of openpyxl, run on every string put in a cell: the
    string is cut, then refused if a character left in it is illegal;
    [None] stands for the [IllegalCharacterError] raised. *)
Definition check_string (value : str) : option str :=
  let value := cell_cut value in
  if existsb is_illegal_char value then None else Some value.

(** [ws.append(row)]: the texts kept for the cells of the new row. *)
Definition ws_append (row : list str) : option (list str) :=
  mapM check_string row.

(** [None] stands for the [IllegalCharacterError] that [ws.append] raises;
    the bytes written by [wb.save] are carried by the workbook. *)
Definition build_excel_bytes (rows : list participant) : option workbook :=
  header ← ws_append headers;
  body ← mapM (λ r, ws_append (row_cells r)) rows;
  Some {| title := utf8 "users"; cells := header :: body |}.

(** ** The [/done] command *)

(** The bytes of an uploaded file are read only through the two parsers:
    they are carried by what [json.loads(raw.decode(..))] gives ([None]
    when it raises) and by what [BeautifulSoup] selects in them. *)
Record raw_bytes := {
  json_loads : option json;
  beautiful_soup : soup;
}.

Record upload := {
  name : str;
  bytes : raw_bytes;
}.

Record aggregate := {
  all_participants : participants_dict;
  all_mentions : gset str;
  processed : nat;
  failed : nat;
}.

Definition empty_aggregate : aggregate :=
  {| all_participants := []; all_mentions := ∅; processed := 0; failed := 0 |}.

(** A result folded into the aggregate: lines 275 to 277. *)
Definition merge_result (acc : aggregate) (r : extraction) : aggregate :=
  let '(_, participants, mentions) := r in
  {| all_participants := dict_update (all_participants acc) participants;
     all_mentions := all_mentions acc ∪ mentions;
     processed := S (processed acc);
     failed := failed acc |}.

Definition merge (results : list extraction) : aggregate :=
  fold_left merge_result results empty_aggregate.

Definition extract_file (now : str) (f : upload) : option extraction :=
  if endswith (utf8 ".json") (name f)
  then data ← json_loads (bytes f); extract_from_json now data
  else extract_from_html now (beautiful_soup (bytes f)).

(** The loop over the files; the [i]-th file reads the clock as [clock i]. *)
Fixpoint for_files (clock : nat → str) (i : nat) (files : list upload)
    (acc : aggregate) : aggregate :=
  match files with
  | [] => acc
  | f :: rest =>
    let acc' :=
      match extract_file (clock i) f with
      | Some r => merge_result acc r
      | None =>
        {| all_participants := all_participants acc;
           all_mentions := all_mentions acc;
           processed := processed acc;
           failed := S (failed acc) |}
      end in
    for_files clock (S i) rest acc'
  end.

(** The sort key of a row and the order of the keys. *)
Definition row_key (r : participant) : str * str * str :=
  (str_lower (username r), str_lower (first_name r), str_lower (last_name r)).

Definition key_ltb (a b : str * str * str) : bool :=
  let '(a1, a2, a3) := a in
  let '(b1, b2, b3) := b in
  str_ltb a1 b1
  || (bool_decide (a1 = b1)
      && (str_ltb a2 b2 || (bool_decide (a2 = b2) && str_ltb a3 b3))).

(** [rows.sort(key=..)] is stable: a row goes after the rows already placed
    whose key is not greater. *)
Fixpoint insert_row (r : participant) (sorted : list participant)
  : list participant :=
  match sorted with
  | [] => [r]
  | x :: rest =>
    if key_ltb (row_key r) (row_key x) then r :: sorted
    else x :: insert_row r rest
  end.

Definition sort_rows (rows : list participant) : list participant :=
  fold_left (fun sorted r => insert_row r sorted) rows [].

(** The two lists built by the loop of the inline rendering. *)
Definition split_rows (rows : list participant) : list str * list str :=
  fold_left
    (fun st r =>
       let '(with_username, no_username) := st in
       let u := _safe_str (JStr (username r)) in
       if nonempty u then (with_username ++ [AT :: u], no_username)
       else
         let fn := _safe_str (JStr (first_name r)) in
         let ln := _safe_str (JStr (last_name r)) in
         (with_username,
          no_username
          ++ [str_or (join [SPACE] (filter (fun p => nonempty p) [fn; ln]))
                     (utf8 "(без имени)")]))
    rows ([], []).

Definition inline_text (rows : list participant) : str :=
  let '(with_username, no_username) := split_rows rows in
  let text_parts := [utf8 "Список участников (username):"] in
  let text_parts :=
    if bool_decide (with_username ≠ [])
    then text_parts
         ++ imap (fun i u => str_of_nat (i + 1) ++ utf8 ". " ++ u) with_username
    else text_parts ++ [utf8 "— (в экспорте не найдено ни одного username)"] in
  let text_parts :=
    if bool_decide (no_username ≠ [])
    then text_parts
         ++ [LF :: utf8 "Участники без username (по имени из экспорта):"]
         ++ map (fun n => utf8 "- " ++ n) no_username
    else text_parts in
  join [LF] text_parts.

(** What the handler sends through the Telegram API. *)
Inductive action :=
| SendTyping
| ReplyText (text : str)
| ReplyDocument (filename caption : str) (document : workbook).

Definition no_files_text : str :=
  utf8 "Файлы не получены. Пришли экспорт (JSON/HTML) и потом /done.".

Definition not_found_text (processed failed : nat) : str :=
  utf8 "Готово. Файлов обработано: " ++ str_of_nat processed
  ++ utf8 ", ошибок: " ++ str_of_nat failed ++ utf8 "." ++ [LF]
  ++ utf8 "Не нашёл участников (возможно, формат экспорта отличается).".

Definition summary_text (processed failed : nat) (total : Z) (mentions : nat)
  : str :=
  utf8 "Готово. Файлов: " ++ str_of_nat processed
  ++ utf8 ", ошибок: " ++ str_of_nat failed ++ utf8 "." ++ [LF]
  ++ utf8 "Уникальных участников (писали сообщения): " ++ str_of_int total
  ++ [LF]
  ++ utf8 "Уникальных @упоминаний в тексте (не участники): "
  ++ str_of_nat mentions.

Definition excel_caption : str :=
  utf8 "Excel со списком участников (export_date, username, first_name, last_name, bio).".

(** The rendering of the rows, lines 305 to 343: the actions it sends, or
    [None] when building the spreadsheet raises (nothing is sent then). *)
Definition render (rows : list participant) (total : Z) : option (list action) :=
  if (total <? LIST_THRESHOLD)%Z then
    Some (map ReplyText (chunk_text (inline_text rows) TELEGRAM_MSG_LIMIT))
  else
    xlsx_bytes ← build_excel_bytes rows;
    Some [ReplyDocument (utf8 "users.xlsx") excel_caption xlsx_bytes].

(** [done] on the files of the session: the files kept in the session
    afterwards, the actions sent, in order, and whether the handler ended
    by raising (the exception of the spreadsheet is not caught). *)
Definition done (clock : nat → str) (files : list upload)
  : list upload * list action * bool :=
  match files with
  | [] => (files, [ReplyText no_files_text], false)
  | _ :: _ =>
    let acc := for_files clock 0 files empty_aggregate in
    let total := len (all_participants acc) in
    if (total =? 0)%Z then
      ([], [SendTyping; ReplyText (not_found_text (processed acc) (failed acc))],
       false)
    else
      let rows := sort_rows (dict_values (all_participants acc)) in
      let sent :=
        [SendTyping;
         ReplyText (summary_text (processed acc) (failed acc) total
                      (size (all_mentions acc)))] in
      match render rows total with
      | Some more => ([], sent ++ more, false)
      | None => ([], sent, true)
      end
  end.

(** ** The session: [/start], [/reset] and uploads

    The session holds [context.user_data["files"]]; every handler reads it
    with [get("files", [])], so a missing entry is the empty list. *)

(** What [handle_document] sees of [msg.document]: its file name, what
    fetching the file gives (the bytes, or the text of the exception
    raised), and the text of the exception that [json.loads] raises on the
    bytes when it does. *)
Record Document := {
  file_name : option str;
  fetched : str + raw_bytes;
  decode_error : str;
}.

Definition start_text : str :=
  utf8 "Привет! Я помогу получить список участников чата по истории сообщений."
  ++ [LF; LF]
  ++ utf8 "Отправь файлы экспорта истории (JSON или HTML), не более "
  ++ str_of_int MAX_FILES ++ utf8 " файлов." ++ [LF]
  ++ utf8 "Когда закончишь — отправь /done" ++ [LF; LF]
  ++ utf8 "Команды:" ++ [LF]
  ++ utf8 "/done — обработать присланные файлы" ++ [LF]
  ++ utf8 "/reset — сбросить список файлов".

Definition reset_text : str :=
  utf8 "Сбросил список файлов. Можешь присылать заново (до 10 файлов).".

Definition limit_text : str :=
  utf8 "Лимит " ++ str_of_int MAX_FILES
  ++ utf8 " файлов достигнут. Отправь /done или /reset.".

Definition wrong_suffix_text : str :=
  utf8 "Нужен файл экспорта .json или .html. Этот файл пропускаю.".

Definition accepted_text (filename : str) (count : Z) : str :=
  utf8 "✅ Принял: " ++ filename ++ utf8 " (" ++ str_of_int count ++ utf8 "/"
  ++ str_of_int MAX_FILES ++ utf8 "). Пришли ещё или /done.".

Definition failure_text (filename e : str) : str :=
  utf8 "❌ Не смог прочитать файл: " ++ filename ++ [LF] ++ utf8 "Ошибка: " ++ e.

Definition start (files : list upload) : list upload * list action :=
  ([], [ReplyText start_text]).

Definition reset (files : list upload) : list upload * list action :=
  ([], [ReplyText reset_text]).

(** [handle_document] on the files of the session and [msg.document]
    ([None] when the message carries none). *)
Definition handle_document (files : list upload) (doc : option Document)
  : list upload * list action :=
  match doc with
  | None => (files, [])
  | Some doc =>
    if (len files >=? MAX_FILES)%Z then (files, [ReplyText limit_text])
    else
      let filename :=
        str_lower (match file_name doc with
                   | Some n => str_or n (utf8 "upload")
                   | None => utf8 "upload"
                   end) in
      if negb (endswith (utf8 ".json") filename || endswith (utf8 ".html") filename)
      then (files, [ReplyText wrong_suffix_text])
      else
        match fetched doc with
        | inl e => (files, [SendTyping; ReplyText (failure_text filename e)])
        | inr raw =>
          if endswith (utf8 ".json") filename
             && negb (bool_decide (is_Some (json_loads raw)))
          then (files,
                [SendTyping; ReplyText (failure_text filename (decode_error doc))])
          else
            let files := files ++ [{| name := filename; bytes := raw |}] in
            (files, [SendTyping; ReplyText (accepted_text filename (len files))])
        end
  end.

(** What a user sends, and the session run on a sequence of it. *)
Inductive event :=
| Start
| Reset
| Upload (doc : option Document)
| Done (clock : nat → str).

Definition handle (files : list upload) (ev : event) : list upload * list action :=
  match ev with
  | Start => start files
  | Reset => reset files
  | Upload doc => handle_document files doc
  | Done clock => (done clock files).1
  end.

Definition session (events : list event) (files : list upload) : list upload :=
  fold_left (λ files ev, (handle files ev).1) events files.

End Bot.

(** * Statements of the specification *)

(** The deleted-account heuristic in the words of the specification: the
    name, compared without regard to case, is "deleted", or contains
    "deleted account", or contains both "удал" and "аккаунт". *)
Definition deleted_heuristic `{rt : PyRuntime} (s : str) : bool :=
  let folded := str_lower s in
  bool_decide (folded = utf8 "deleted")
  || contains (utf8 "deleted account") folded
  || (contains (utf8 "удал") folded && contains (utf8 "аккаунт") folded).

(** A message whose name or identifier matches the heuristic leaves the
    participants as they were. *)
Definition skips_deleted_as_stated `{rt : PyRuntime} (export_date : str)
    (m : list (str * json)) (st : participants_dict * gset str) : Prop :=
  deleted_heuristic (resolve_from_name m) = true
  ∨ deleted_heuristic (resolve_from_id m) = true →
  ∃ mentions, process_message export_date (JObj m) st = Some (st.1, mentions).

Definition is_list (x : json) : bool :=
  match x with JList _ => true | _ => false end.

(** The pattern tried at every position, one after the other. *)
Fixpoint scan_all `{rt : PyRuntime} (prev : option char) (s : str) : list str :=
  match s with
  | [] => []
  | c :: rest =>
    match match_at prev s with
    | Some group => group :: scan_all (Some c) rest
    | None => scan_all (Some c) rest
    end
  end.

(** [tok] stands in [text] after an [@] that no word character precedes,
    made of 5 to 32 handle characters. *)
Definition mention_as_stated `{rt : PyRuntime} (text tok : str) : Prop :=
  ∃ pre post,
    text = pre ++ [AT] ++ tok ++ post
    ∧ (∀ p, last pre = Some p → is_word_char p = false)
    ∧ Forall (λ c, is_handle_char c = true) tok
    ∧ (5 ≤ length tok ≤ 32)%nat.

(** The scanner as the set of all such tokens, lowercased. *)
Definition scan_as_stated `{rt : PyRuntime} (text : option str) : Prop :=
  ∀ t, t ∈ extract_mentions_from_text text
       ↔ ∃ tok, mention_as_stated (default [] text) tok ∧ t = str_lower tok.

(** The same, [tok] being the longest such run: it has 32 characters or no
    handle character follows it. *)
Definition mention_in `{rt : PyRuntime} (text tok : str) : Prop :=
  ∃ pre post,
    text = pre ++ [AT] ++ tok ++ post
    ∧ (∀ p, last pre = Some p → is_word_char p = false)
    ∧ Forall (λ c, is_handle_char c = true) tok
    ∧ (5 ≤ length tok ≤ 32)%nat
    ∧ (length tok = 32%nat ∨ ∀ c, head post = Some c → is_handle_char c = false).

(** What precedes a position: the last character of [pre], or [prev] when
    [pre] is empty. *)
Definition before (prev : option char) (pre : str) : option char :=
  match last pre with
  | Some p => Some p
  | None => prev
  end.

(** A line of 4047 letters, one more than a chunk may hold. *)
Definition long_line : str := replicate 4047 97%N.

(** The bound of a chunk as a plain size limit. *)
Definition chunks_within_limit (text : str) : Prop :=
  ∀ c, c ∈ chunk_text text TELEGRAM_MSG_LIMIT → (len c ≤ TELEGRAM_MSG_LIMIT - 50)%Z.

(** The loop of [chunk_text] from a state, then the final flush. *)
Definition chunk_run (limit : Z) (lines : list str) (st : list str * str)
  : list str :=
  chunk_finish (fold_left (chunk_step limit) lines st).

(** Within the budget, or one whole line. *)
Definition chunk_ok (limit : Z) (all : list str) (c : str) : Prop :=
  (len c ≤ limit - 50)%Z ∨ c ∈ all.

(** A dict binds a key once. *)
Definition dict_wf (d : participants_dict) : Prop := NoDup (map fst d).

Definition participants_of (r : extraction) : participants_dict := r.1.2.
Definition mentions_of (r : extraction) : gset str := r.2.







(** A parsed document without a list of messages: not a dict at all, or a
    dict whose [messages] is missing or is not a list. *)
Definition lacks_message_list (data : json) : Prop :=
  ∀ doc messages,
    data = JObj doc → dict_get (utf8 "messages") doc ≠ JList messages.

(** Every such document gives an empty result. *)
Definition no_messages_as_stated `{rt : PyRuntime} (now : str) (data : json)
  : Prop :=
  lacks_message_list data →
  ∃ date, extract_from_json now data = Some (date, [], ∅).

(** The record [rec] under [key] is the one the JSON extractor stores for
    the message [m] of an export dated [date]: the author's name is not a
    deleted account's, the key is built from the identifier of the message
    and the stored names, and some part of the identity is not empty. *)
Definition stored_from `{rt : PyRuntime} (date : str) (m : list (str * json))
    (key : str) (rec : participant) : Prop :=
  deleted_heuristic (resolve_from_name m) = false
  ∧ key = _make_user_key (resolve_from_id m) (username rec) (first_name rec)
            (last_name rec)
  ∧ username rec = resolve_username m
  ∧ export_date rec = date
  ∧ bio rec = utf8 "N/A"
  ∧ (resolve_from_id m ≠ [] ∨ username rec ≠ [] ∨ first_name rec ≠ []
     ∨ last_name rec ≠ []).

(** The record [rec] under [key] is the one the HTML extractor stores at
    the time [now] for an author element of text [tag]. *)
Definition stored_from_tag `{rt : PyRuntime} (now : str) (tag : str)
    (key : str) (rec : participant) : Prop :=
  strip tag ≠ []
  ∧ deleted_heuristic (strip tag) = false
  ∧ _split_name tag = Some (first_name rec, last_name rec)
  ∧ first_name rec ≠ []
  ∧ username rec = []
  ∧ key = utf8 "n:" ++ str_lower (first_name rec) ++ utf8 "|"
          ++ str_lower (last_name rec)
  ∧ export_date rec = now
  ∧ bio rec = utf8 "N/A".

(** The results of the files that parse, in upload order. *)
Fixpoint successes `{rt : PyRuntime} (clock : nat → str) (i : nat)
    (files : list upload) : list extraction :=
  match files with
  | [] => []
  | f :: rest =>
    match extract_file (clock i) f with
    | Some r => r :: successes clock (S i) rest
    | None => successes clock (S i) rest
    end
  end.

(** What [handle_document] keeps true of the files of a session: at most
    [MAX_FILES] of them, each named [.json] or [.html], the [.json] ones
    holding a document that [json.loads] decodes. *)
Definition session_ok (files : list upload) : Prop :=
  (len files ≤ MAX_FILES)%Z
  ∧ Forall (λ f,
      (endswith (utf8 ".json") (name f) = true
       ∨ endswith (utf8 ".html") (name f) = true)
      ∧ (endswith (utf8 ".json") (name f) = true → is_Some (json_loads (bytes f))))
     files.

(** The rows are in ascending order of their keys: no row has a key greater
    than the key of a later row. *)
Fixpoint rows_sorted `{rt : PyRuntime} (rows : list participant) : Prop :=
  match rows with
  | [] => True
  | a :: rest =>
    Forall (λ b, key_ltb (row_key b) (row_key a) = false) rest
    ∧ rows_sorted rest
  end.

(** How a participant without username is shown in the inline list. *)
Definition shown_name `{rt : PyRuntime} (r : participant) : str :=
  str_or (join [SPACE]
            (filter (λ p, nonempty p)
                    [_safe_str (JStr (first_name r)); _safe_str (JStr (last_name r))]))
         (utf8 "(без имени)").

Definition has_username `{rt : PyRuntime} (r : participant) : bool :=
  nonempty (_safe_str (JStr (username r))).

(** A file that [done] can read: not named [.json], or holding a JSON
    object. *)
Definition readable (f : upload) : Prop :=
  endswith (utf8 ".json") (name f) = true →
  ∃ doc, json_loads (bytes f) = Some (JObj doc).

(** * Sample inputs *)

Definition sample_clock : nat → str := λ _, utf8 "2024-06-01T12:00:00+00:00".

Definition json_upload (file_name : string) (data : json) : upload :=
  {| name := utf8 file_name;
     bytes := {| json_loads := Some data;
                 beautiful_soup := {| select_from_name := []; select_text := [] |} |} |}.

(** Two authors, one with an identifier and one with a username, and a
    deleted account. *)
Definition sample_export : json :=
  JObj [(utf8 "export_date", JStr (utf8 "2024-01-01T00:00:00Z"));
        (utf8 "messages",
         JList [JObj [(utf8 "from", JStr (utf8 "Ann Lee"));
                      (utf8 "from_id", JInt 1);
                      (utf8 "text", JStr (utf8 "hello @Bobby and @bob"))];
                JObj [(utf8 "from", JStr (utf8 "Bob"));
                      (utf8 "username", JStr (utf8 "Bob"));
                      (utf8 "text", JList [JStr (utf8 "hi")])];
                JObj [(utf8 "from", JStr (utf8 "Deleted Account"));
                      (utf8 "from_id", JStr (utf8 "user3"))]])].

(** An export without any message. *)
Definition empty_export : upload := json_upload "result.json" (JObj []).

(** An export with one message from each of the authors 1 to [n]. *)
Definition export_of_authors (n : nat) : upload :=
  json_upload "result.json"
    (JObj [(utf8 "export_date", JStr (utf8 "2024-01-01T00:00:00Z"));
           (utf8 "messages",
            JList (map (λ i, JObj [(utf8 "from_id", JInt (Z.of_nat i));
                                   (utf8 "text", JStr (utf8 "hi"))])
                       (seq 1 n)))]).

(** An export with one message from each of the authors 1 to [n], all
    under the display name [author]. *)
Definition export_of_named_authors (n : nat) (author : str) : upload :=
  json_upload "result.json"
    (JObj [(utf8 "export_date", JStr (utf8 "2024-01-01T00:00:00Z"));
           (utf8 "messages",
            JList (map (λ i, JObj [(utf8 "from", JStr author);
                                   (utf8 "from_id", JInt (Z.of_nat i))])
                       (seq 1 n)))]).

(** The name "A", U+0001, "B". *)
Definition name_with_control : str := [65; 1; 66]%N.

(** A document whose [messages] is a string. *)
Definition export_without_list : list (str * json) :=
  [(utf8 "messages", JStr (utf8 "none"))].

(** A message whose identifier, not its name, reads "deleted". *)
Definition message_with_deleted_id : list (str * json) :=
  [(utf8 "from", JStr (utf8 "Bob")); (utf8 "from_id", JStr (utf8 "deleted"))].

Definition message_from_deleted_account : list (str * json) :=
  [(utf8 "from", JStr (utf8 "Deleted Account"));
   (utf8 "from_id", JStr (utf8 "user42"));
   (utf8 "text", JStr (utf8 "bye @everyone"))].

Definition sample_record (last : string) : participant :=
  {| export_date := utf8 "2024-01-01T00:00:00Z";
     username := utf8 "bob";
     first_name := utf8 "Bob";
     last_name := utf8 last;
     bio := utf8 "N/A" |}.

Definition result_a : extraction :=
  (utf8 "2024-01-01T00:00:00Z", [(utf8 "u:bob", sample_record "Stone")],
   {[ utf8 "alice" ]}).

Definition result_b : extraction :=
  (utf8 "2024-01-02T00:00:00Z", [(utf8 "u:bob", sample_record "Brick")],
   {[ utf8 "carol" ]}).

(** A message of author 1 and a message of a deleted account, and what the
    JSON extractor gives for them. *)
Definition message_of_ann : list (str * json) :=
  [(utf8 "from", JStr (utf8 "Ann Lee"));
   (utf8 "from_id", JInt 1);
   (utf8 "text", JStr (utf8 "hello @Bobby"))].

Definition two_messages : list json :=
  [JObj message_of_ann; JObj message_from_deleted_account].

Definition export_of_two : list (str * json) :=
  [(utf8 "export_date", JStr (utf8 "2024-01-01T00:00:00Z"));
   (utf8 "messages", JList two_messages)].

Definition record_of_ann : participant :=
  {| export_date := utf8 "2024-01-01T00:00:00Z";
     username := [];
     first_name := utf8 "Ann";
     last_name := utf8 "Lee";
     bio := utf8 "N/A" |}.

Definition result_of_two : extraction :=
  (utf8 "2024-01-01T00:00:00Z", [(utf8 "id:1", record_of_ann)],
   {[ utf8 "bobby"; utf8 "everyone" ]}).

(** An HTML export with two author elements and one message body. *)
Definition sample_soup : soup :=
  {| select_from_name := [utf8 " Ann Lee "; utf8 "Deleted Account"];
     select_text := [utf8 " see @Bobby "] |}.

Definition result_of_soup : extraction :=
  (sample_clock 0%nat,
   [(utf8 "n:ann|lee",
     {| export_date := sample_clock 0%nat; username := [];
        first_name := utf8 "Ann"; last_name := utf8 "Lee";
        bio := utf8 "N/A" |})],
   {[ utf8 "bobby" ]}).

(** A document sent as [Result.JSON] that holds an empty JSON object. *)
Definition sample_document : Document :=
  {| file_name := Some (utf8 "Result.JSON");
     fetched := inr (bytes empty_export);
     decode_error := [] |}.

(** * Properties *)

(** ** Text *)

Lemma nonempty_true (s : str) : nonempty s = true ↔ s ≠ [].
Proof. destruct s; simpl; split; congruence. Qed.

Lemma nonempty_false (s : str) : nonempty s = false ↔ s = [].
Proof. destruct s; simpl; split; congruence. Qed.

Lemma len_nonneg {A} (l : list A) : (0 ≤ len l)%Z.
Proof. unfold len. lia. Qed.

Lemma len_app {A} (l k : list A) : len (l ++ k) = (len l + len k)%Z.
Proof. unfold len. rewrite length_app. lia. Qed.

Lemma len_pos (s : str) : s ≠ [] → (0 < len s)%Z.
Proof. destruct s; [done|]. unfold len. simpl. lia. Qed.

Lemma concat_groups (groups : list (list str)) :
  concat (map (@concat char) groups) = concat (concat groups).
Proof.
  induction groups as [|g groups IH]; [done|].
  simpl. by rewrite concat_app, IH.
Qed.

(** The lines of a text, put end to end, are the text; the induction
    carries the statement for a text and for the text one character longer,
    as [splitlines] looks two characters ahead. *)
Lemma splitlines_concat_aux (s : str) :
  concat (splitlines s) = s ∧ ∀ c, concat (splitlines (c :: s)) = c :: s.
Proof.
  induction s as [|c' rest [IH1 IH2]].
  - split; [done|]. intros c. simpl. by destruct (is_linebreak c).
  - split; [apply IH2|]. intros c.
    change (splitlines (c :: c' :: rest)) with
      (if is_linebreak c then
         if (c =? CR)%N && (c' =? LF)%N then [c; c'] :: splitlines rest
         else [c] :: splitlines (c' :: rest)
       else match splitlines (c' :: rest) with
            | line :: lines => (c :: line) :: lines
            | [] => [[c]]
            end).
    destruct (is_linebreak c).
    + destruct ((c =? CR)%N && (c' =? LF)%N); simpl.
      * by rewrite IH1.
      * f_equal. apply IH2.
    + specialize (IH2 c'). destruct (splitlines (c' :: rest)); [done|].
      simpl in *. by rewrite IH2.
Qed.

Lemma splitlines_concat (s : str) : concat (splitlines s) = s.
Proof. apply splitlines_concat_aux. Qed.

Lemma splitlines_nonempty_aux (s : str) :
  Forall (λ line, line ≠ []) (splitlines s)
  ∧ ∀ c, Forall (λ line, line ≠ []) (splitlines (c :: s)).
Proof.
  induction s as [|c' rest [IH1 IH2]].
  - split; [constructor|]. intros c. simpl.
    destruct (is_linebreak c); by repeat constructor.
  - split; [apply IH2|]. intros c.
    change (splitlines (c :: c' :: rest)) with
      (if is_linebreak c then
         if (c =? CR)%N && (c' =? LF)%N then [c; c'] :: splitlines rest
         else [c] :: splitlines (c' :: rest)
       else match splitlines (c' :: rest) with
            | line :: lines => (c :: line) :: lines
            | [] => [[c]]
            end).
    destruct (is_linebreak c).
    + destruct ((c =? CR)%N && (c' =? LF)%N); by constructor.
    + specialize (IH2 c'). destruct (splitlines (c' :: rest)).
      * by repeat constructor.
      * inversion IH2; subst. by constructor.
Qed.

(** Every line of [splitlines] has at least one character. *)
Lemma splitlines_nonempty (s : str) : Forall (λ line, line ≠ []) (splitlines s).
Proof. apply splitlines_nonempty_aux. Qed.

(** ** Chunking *)

Section Chunking.
Variable limit : Z.

Lemma chunk_run_nil (st : list str * str) : chunk_run limit [] st = chunk_finish st.
Proof. done. Qed.

Lemma chunk_run_cons (line : str) (lines chunks : list str) (cur : str) :
  chunk_run limit (line :: lines) (chunks, cur) =
  if (len cur + len line >? limit - 50)%Z
  then chunk_run limit lines (chunks ++ [cur], line)
  else chunk_run limit lines (chunks, cur ++ line).
Proof.
  unfold chunk_run. simpl. by destruct (len cur + len line >? limit - 50)%Z.
Qed.

Lemma chunk_text_run (text : str) : chunk_text text limit = chunk_run limit (splitlines text) ([], []).
Proof. done. Qed.

(** Chunks already emitted stay where they are. *)
Lemma chunk_run_prefix (lines chunks : list str) (cur : str) :
  ∃ more, chunk_run limit lines (chunks, cur) = chunks ++ more.
Proof.
  revert chunks cur. induction lines as [|line lines IH]; intros chunks cur.
  - rewrite chunk_run_nil. simpl. destruct (nonempty cur); [by eexists|].
    exists []. by rewrite app_nil_r.
  - rewrite chunk_run_cons. destruct (len cur + len line >? limit - 50)%Z.
    + destruct (IH (chunks ++ [cur]) line) as [more ->].
      exists ([cur] ++ more). by rewrite app_assoc.
    + apply IH.
Qed.

Lemma chunk_run_keeps (lines chunks : list str) (cur c : str) :
  c ∈ chunks → c ∈ chunk_run limit lines (chunks, cur).
Proof.
  intros Hc. destruct (chunk_run_prefix lines chunks cur) as [more ->].
  apply elem_of_app. by left.
Qed.

Lemma chunk_run_head (lines chunks : list str) (cur c : str) :
  head chunks = Some c → head (chunk_run limit lines (chunks, cur)) = Some c.
Proof.
  intros Hc. destruct (chunk_run_prefix lines chunks cur) as [more ->].
  by destruct chunks.
Qed.

(** A chunk is a run of whole lines: the chunks are the concatenations of
    consecutive groups of lines. *)
Lemma chunk_run_groups (lines : list str) (gs : list (list str)) (g : list str) :
  Forall (λ line, line ≠ []) lines →
  Forall (λ line, line ≠ []) g →
  ∃ groups : list (list str),
    concat groups = concat gs ++ g ++ lines
    ∧ map (@concat char) groups = chunk_run limit lines (map (@concat char) gs, concat g).
Proof.
  revert gs g. induction lines as [|line lines IH]; intros gs g Hlines Hg.
  - rewrite chunk_run_nil. simpl. destruct (nonempty (concat g)) eqn:Hne.
    + exists (gs ++ [g]). rewrite concat_app, map_app. simpl.
      by rewrite !app_nil_r.
    + exists gs. split; [|done]. apply nonempty_false in Hne.
      destruct Hg as [|l g Hl _]; [by rewrite !app_nil_r|].
      simpl in Hne. by destruct l.
  - inversion Hlines as [|? ? Hline Hrest]; subst.
    rewrite chunk_run_cons. destruct (len (concat g) + len line >? limit - 50)%Z.
    + destruct (IH (gs ++ [g]) [line] Hrest) as (groups & Hcat & Hmap).
      { by constructor. }
      exists groups. split.
      * rewrite Hcat, concat_app. simpl. by rewrite app_nil_r, <- !app_assoc.
      * rewrite Hmap, map_app. simpl. by rewrite app_nil_r.
    + destruct (IH gs (g ++ [line]) Hrest) as (groups & Hcat & Hmap).
      { apply Forall_app. split; [done|]. by constructor. }
      exists groups. split.
      * rewrite Hcat. by rewrite <- !app_assoc.
      * rewrite Hmap, concat_app. simpl. by rewrite app_nil_r.
Qed.

(** A buffer longer than the budget is flushed as it is. *)
Lemma chunk_run_long_cur (lines chunks : list str) (cur : str) :
  cur ≠ [] → (len cur > limit - 50)%Z → cur ∈ chunk_run limit lines (chunks, cur).
Proof.
  intros Hne Hlong. destruct lines as [|line lines].
  - rewrite chunk_run_nil. simpl. apply nonempty_true in Hne. rewrite Hne.
    apply elem_of_app. right. by apply list_elem_of_singleton.
  - rewrite chunk_run_cons.
    assert ((len cur + len line >? limit - 50)%Z = true) as ->.
    { pose proof (len_nonneg line). lia. }
    apply chunk_run_keeps, elem_of_app. right. by apply list_elem_of_singleton.
Qed.

Lemma chunk_run_long_line (lines : list str) (st : list str * str) (line : str) :
  line ∈ lines → line ≠ [] → (len line > limit - 50)%Z →
  line ∈ chunk_run limit lines st.
Proof.
  intros Hin Hne Hlong. revert st.
  induction lines as [|l lines IH]; intros [chunks cur].
  - by apply elem_of_nil in Hin.
  - rewrite chunk_run_cons. apply elem_of_cons in Hin as [<-|Hin].
    + assert ((len cur + len line >? limit - 50)%Z = true) as ->.
      { pose proof (len_nonneg cur). lia. }
      by apply chunk_run_long_cur.
    + destruct (len cur + len l >? limit - 50)%Z; by apply IH.
Qed.

Lemma chunk_run_ok (all lines chunks : list str) (cur : str) :
  lines ⊆ all →
  Forall (chunk_ok limit all) chunks → chunk_ok limit all cur →
  Forall (chunk_ok limit all) (chunk_run limit lines (chunks, cur)).
Proof.
  revert chunks cur. induction lines as [|line lines IH]; intros chunks cur Hsub Hch Hcur.
  - rewrite chunk_run_nil. simpl. destruct (nonempty cur); [|done].
    apply Forall_app. split; [done|]. by constructor.
  - assert (lines ⊆ all) as Hsub' by set_solver.
    rewrite chunk_run_cons.
    destruct (len cur + len line >? limit - 50)%Z eqn:Hgt.
    + apply IH; [done| |].
      * apply Forall_app. split; [done|]. by constructor.
      * right. set_solver.
    + apply IH; [done..|]. left. rewrite len_app. lia.
Qed.

(** Once a line has been read the buffer is not empty. *)
Lemma chunk_fold_cur (lines chunks : list str) (cur : str) (chunks' : list str) (cur' : str) :
  Forall (λ line, line ≠ []) lines →
  (cur = [] → chunks = []) →
  fold_left (chunk_step limit) lines (chunks, cur) = (chunks', cur') →
  cur' = [] → chunks' = [].
Proof.
  revert chunks cur. induction lines as [|line lines IH]; intros chunks cur Hlines Hst.
  - simpl. intros [= <- <-]. done.
  - inversion Hlines as [|? ? Hline Hrest]; subst. simpl.
    destruct (len cur + len line >? limit - 50)%Z.
    + apply IH; [done|]. intros ->. done.
    + apply IH; [done|]. intros Happ. by apply app_eq_nil in Happ as [_ ->].
Qed.

Lemma chunk_run_last (lines : list str) :
  Forall (λ line, line ≠ []) lines →
  last (chunk_run limit lines ([], [])) ≠ Some [].
Proof.
  intros Hlines. unfold chunk_run.
  destruct (fold_left (chunk_step limit) lines ([], [])) as [chunks cur] eqn:Hfold.
  pose proof (chunk_fold_cur lines [] [] chunks cur Hlines (λ _, eq_refl) Hfold) as H.
  simpl. destruct (nonempty cur) eqn:Hne.
  - rewrite last_snoc. apply nonempty_true in Hne. congruence.
  - apply nonempty_false in Hne. by rewrite (H Hne).
Qed.

(** After the first chunk no chunk is empty. *)
Lemma chunk_run_tail (lines chunks : list str) (cur : str) :
  Forall (λ line, line ≠ []) lines →
  Forall (λ c, c ≠ []) (tail chunks) → (chunks ≠ [] → cur ≠ []) →
  Forall (λ c, c ≠ []) (tail (chunk_run limit lines (chunks, cur))).
Proof.
  revert chunks cur. induction lines as [|line lines IH]; intros chunks cur Hlines Htl Hcur.
  - rewrite chunk_run_nil. simpl. destruct (nonempty cur) eqn:Hne; [|done].
    destruct chunks as [|c chunks]; [done|]. simpl in *.
    apply Forall_app. split; [done|]. constructor; [|done]. by apply Hcur.
  - inversion Hlines as [|? ? Hline Hrest]; subst. rewrite chunk_run_cons.
    destruct (len cur + len line >? limit - 50)%Z.
    + apply IH; [done| |done].
      destruct chunks as [|c chunks]; [done|]. simpl in *.
      apply Forall_app. split; [done|]. constructor; [|done]. by apply Hcur.
    + apply IH; [done..|]. intros _ Happ. by apply app_eq_nil in Happ as [_ ->].
Qed.

(** With nothing emitted and a buffer that is not empty, the first chunk
    will not be empty. *)
Lemma chunk_run_head_nonempty (lines : list str) (cur : str) :
  cur ≠ [] → head (chunk_run limit lines ([], cur)) ≠ Some [].
Proof.
  revert cur. induction lines as [|line lines IH]; intros cur Hcur.
  - rewrite chunk_run_nil. simpl. apply nonempty_true in Hcur as Hne.
    rewrite Hne. simpl. congruence.
  - rewrite chunk_run_cons. destruct (len cur + len line >? limit - 50)%Z.
    + rewrite app_nil_l, (chunk_run_head lines [cur] line cur eq_refl). congruence.
    + apply IH. intros Happ. by apply app_eq_nil in Happ as [-> _].
Qed.

End Chunking.

(** A line longer than 4046 characters is sent whole, in a chunk above the
    bound. *)
Lemma chunk_text_long_line_exceeds : ¬ chunks_within_limit long_line.
Proof.
  intros H. specialize (H long_line).
  assert (long_line ∈ chunk_text long_line TELEGRAM_MSG_LIMIT) as Hin.
  { assert (chunk_text long_line TELEGRAM_MSG_LIMIT = [[]; long_line]) as ->
      by (vm_compute; reflexivity).
    set_solver. }
  apply H in Hin. vm_compute in Hin. by apply Hin.
Qed.

(** C6 (amended): every chunk of [chunk_text] at the Telegram limit is at
    most 4096 - 50 characters long or is one whole line of the text, and
    the last chunk is never empty. *)
Theorem chunk_text_limit_or_line (text : str) :
  (∀ c, c ∈ chunk_text text TELEGRAM_MSG_LIMIT →
        (len c ≤ TELEGRAM_MSG_LIMIT - 50)%Z ∨ c ∈ splitlines text)
  ∧ last (chunk_text text TELEGRAM_MSG_LIMIT) ≠ Some [].
Proof.
  split.
  - intros c Hc. rewrite chunk_text_run in Hc.
    pose proof (chunk_run_ok TELEGRAM_MSG_LIMIT (splitlines text)
                  (splitlines text) [] []) as Hok.
    eapply Forall_forall in Hok; [exact Hok| | |left; by vm_compute|exact Hc];
      [set_solver|constructor].
  - rewrite chunk_text_run. apply chunk_run_last, splitlines_nonempty.
Qed.

Lemma chunk_text_limit_or_line_witness :
  ((len long_line ≤ TELEGRAM_MSG_LIMIT - 50)%Z ∨ long_line ∈ splitlines long_line)
  ∧ last (chunk_text long_line TELEGRAM_MSG_LIMIT) ≠ Some [].
Proof.
  split.
  - apply (proj1 (chunk_text_limit_or_line long_line) long_line).
    assert (chunk_text long_line TELEGRAM_MSG_LIMIT = [[]; long_line]) as ->
      by (vm_compute; reflexivity).
    apply elem_of_cons. right. apply elem_of_cons. by left.
  - apply (proj2 (chunk_text_limit_or_line long_line)).
Defined.

(** C7: chunks are made of whole lines (they are the concatenations of
    consecutive groups of the lines of the text), a line longer than the
    budget is a chunk of its own, and the chunks put end to end are the
    text. *)
Theorem chunk_text_line_roundtrip (text : str) (limit : Z) :
  (∃ groups : list (list str),
      concat groups = splitlines text
      ∧ map (@concat char) groups = chunk_text text limit)
  ∧ (∀ line, line ∈ splitlines text → (len line > limit - 50)%Z →
             line ∈ chunk_text text limit)
  ∧ concat (chunk_text text limit) = text.
Proof.
  pose proof (splitlines_nonempty text) as Hne.
  destruct (chunk_run_groups limit (splitlines text) [] [] Hne) as (groups & Hcat & Hmap);
    [constructor|].
  simpl in Hcat, Hmap. rewrite <- chunk_text_run in Hmap.
  split; [by exists groups|]. split.
  - intros line Hin Hlong. rewrite chunk_text_run.
    apply chunk_run_long_line; [done| |done].
    by eapply Forall_forall in Hne.
  - rewrite <- Hmap, concat_groups, Hcat. apply splitlines_concat.
Qed.

Lemma chunk_text_line_roundtrip_witness :
  long_line ∈ chunk_text long_line TELEGRAM_MSG_LIMIT.
Proof.
  apply (proj1 (proj2 (chunk_text_line_roundtrip long_line TELEGRAM_MSG_LIMIT))).
  - assert (splitlines long_line = [long_line]) as -> by (vm_compute; reflexivity).
    apply elem_of_cons. by left.
  - by vm_compute.
Defined.

(** C10: every chunk after the first is non-empty; the first chunk is empty
    exactly when the first line alone is longer than the limit minus 50, and
    that happens for some text. *)
Theorem chunk_text_empty_only_first (text : str) (limit : Z) :
  (∀ i c, chunk_text text limit !! S i = Some c → c ≠ [])
  ∧ (∀ first rest, splitlines text = first :: rest →
       ((len first > limit - 50)%Z ↔ head (chunk_text text limit) = Some []))
  ∧ (∃ text', head (chunk_text text' TELEGRAM_MSG_LIMIT) = Some []).
Proof.
  pose proof (splitlines_nonempty text) as Hne.
  split; [|split].
  - intros i c Hi. rewrite chunk_text_run in Hi.
    pose proof (chunk_run_tail limit (splitlines text) [] [] Hne) as Htl.
    eapply Forall_lookup_1 in Htl; [exact Htl|constructor|done|].
    rewrite lookup_tail. exact Hi.
  - intros first rest Hsplit. rewrite chunk_text_run, Hsplit in *.
    inversion Hne as [|? ? Hfirst Hrest]; subst.
    rewrite chunk_run_cons. simpl app.
    destruct (len (@nil char) + len first >? limit - 50)%Z eqn:Hgt.
    + split.
      * intros _. apply (chunk_run_head limit rest [[]] first [] eq_refl).
      * intros _. change (len (@nil char)) with 0%Z in Hgt. lia.
    + split.
      * change (len (@nil char)) with 0%Z in Hgt. lia.
      * intros Hhd. by apply chunk_run_head_nonempty in Hhd.
  - exists long_line. by vm_compute.
Qed.

Lemma chunk_text_empty_only_first_witness :
  long_line ≠ [] ∧ head (chunk_text long_line TELEGRAM_MSG_LIMIT) = Some [].
Proof.
  split.
  - apply (proj1 (chunk_text_empty_only_first long_line TELEGRAM_MSG_LIMIT)
             0%nat long_line).
    by vm_compute.
  - apply (proj1 (proj2 (chunk_text_empty_only_first long_line TELEGRAM_MSG_LIMIT))
             long_line []); by vm_compute.
Defined.

(** ** The mention scanner *)

Section Scanner.
Context `{rt : PyRuntime}.

Lemma take_handle_spec (n : nat) (s : str) :
  ∃ post,
    s = take_handle n s ++ post
    ∧ Forall (λ c, is_handle_char c = true) (take_handle n s)
    ∧ (length (take_handle n s) ≤ n)%nat
    ∧ (length (take_handle n s) = n ∨ ∀ c, head post = Some c → is_handle_char c = false).
Proof.
  revert s. induction n as [|n IH]; intros s.
  - exists s. destruct s; simpl; repeat split; auto.
  - destruct s as [|c rest].
    + exists []. simpl. repeat split; auto with lia. right. intros ? [=].
    + simpl. destruct (is_handle_char c) eqn:Hc.
      * destruct (IH rest) as (post & Heq & Hall & Hlen & Hmax).
        exists post. simpl. repeat split.
        -- by rewrite <- Heq.
        -- by constructor.
        -- lia.
        -- destruct Hmax as [->|Hmax]; [by left|by right].
      * exists (c :: rest). simpl. repeat split; auto with lia.
        right. by intros ? [= <-].
Qed.

Lemma take_handle_unique (n : nat) (tok post : str) :
  Forall (λ c, is_handle_char c = true) tok →
  (length tok ≤ n)%nat →
  (length tok = n ∨ ∀ c, head post = Some c → is_handle_char c = false) →
  take_handle n (tok ++ post) = tok.
Proof.
  revert tok. induction n as [|n IH]; intros tok Hall Hlen Hmax.
  - destruct tok; [|simpl in Hlen; lia]. by destruct post.
  - destruct tok as [|c tok].
    + destruct Hmax as [[=]|Hmax]. destruct post as [|c post]; [done|].
      simpl. by rewrite (Hmax c eq_refl).
    + inversion Hall as [|? ? Hc Htok]; subst. simpl. rewrite Hc. f_equal.
      apply IH; [done|simpl in Hlen; lia|].
      destruct Hmax as [Hmax|Hmax]; [left; simpl in Hmax; lia|by right].
Qed.

Lemma handle_char_not_at (c : char) : is_handle_char c = true → c ≠ AT.
Proof. intros Hc ->. by vm_compute in Hc. Qed.

Lemma match_at_cons (prev : option char) (c : char) (rest : str) :
  match_at prev (c :: rest) =
  if (c =? AT)%N && lookbehind_ok prev
  then if (5 <=? length (take_handle 32 rest))%nat
       then Some (take_handle 32 rest) else None
  else None.
Proof. done. Qed.

Lemma match_at_not_at (prev : option char) (c : char) (rest : str) :
  c ≠ AT → match_at prev (c :: rest) = None.
Proof. intros Hc. rewrite match_at_cons. apply N.eqb_neq in Hc. by rewrite Hc. Qed.

(** No match starts inside a match: passing over the characters of a match
    finds what trying every position finds. *)
Lemma finditer_scan_all (s : str) (prev : option char) (skip : nat) :
  Forall (λ c, c ≠ AT) (take skip s) →
  finditer prev skip s = scan_all prev s.
Proof.
  revert prev skip. induction s as [|c rest IH]; intros prev skip Hskip; [by destruct skip|].
  destruct skip as [|skip].
  - cbn [finditer scan_all]. destruct (match_at prev (c :: rest)) as [group|] eqn:Hm.
    + f_equal. apply IH. rewrite match_at_cons in Hm.
      destruct ((c =? AT)%N && lookbehind_ok prev); [|done].
      destruct (5 <=? length (take_handle 32 rest))%nat; [|done].
      assert (group = take_handle 32 rest) as -> by congruence.
      destruct (take_handle_spec 32 rest) as (post & Heq & Hall & _).
      rewrite Heq at 2. rewrite take_app_length.
      eapply Forall_impl; [exact Hall|]. intros x. apply handle_char_not_at.
    + apply IH. constructor.
  - cbn [finditer scan_all]. simpl in Hskip.
    inversion Hskip as [|? ? Hc Hrest]; subst.
    rewrite (match_at_not_at prev c rest Hc). by apply IH.
Qed.

Lemma before_cons (prev : option char) (c : char) (pre : str) :
  before prev (c :: pre) = before (Some c) pre.
Proof.
  unfold before. destruct pre as [|c' pre]; [done|].
  change (last (c :: c' :: pre)) with (last (c' :: pre)).
  destruct (last (c' :: pre)) eqn:Hl; [done|].
  by apply last_None in Hl.
Qed.

Lemma scan_all_spec (s : str) (prev : option char) (tok : str) :
  tok ∈ scan_all prev s ↔
  ∃ pre post,
    s = pre ++ [AT] ++ tok ++ post
    ∧ lookbehind_ok (before prev pre) = true
    ∧ Forall (λ c, is_handle_char c = true) tok
    ∧ (5 ≤ length tok ≤ 32)%nat
    ∧ (length tok = 32%nat ∨ ∀ c, head post = Some c → is_handle_char c = false).
Proof.
  split.
  - revert prev. induction s as [|c rest IH]; intros prev Hin.
    { by apply elem_of_nil in Hin. }
    assert (tok ∈ scan_all (Some c) rest →
            ∃ pre post, c :: rest = pre ++ [AT] ++ tok ++ post
              ∧ lookbehind_ok (before prev pre) = true
              ∧ Forall (λ c, is_handle_char c = true) tok
              ∧ (5 ≤ length tok ≤ 32)%nat
              ∧ (length tok = 32%nat ∨ ∀ c, head post = Some c → is_handle_char c = false))
      as Hrest.
    { intros Hin'. destruct (IH _ Hin') as (pre & post & -> & Hlb & Htok).
      exists (c :: pre), post. split; [done|]. by rewrite before_cons. }
    cbn [scan_all] in Hin.
    destruct (match_at prev (c :: rest)) as [group|] eqn:Hm; [|by apply Hrest].
    apply elem_of_cons in Hin as [->|Hin]; [|by apply Hrest].
    rewrite match_at_cons in Hm. destruct (c =? AT)%N eqn:Hc; [|done].
    destruct (lookbehind_ok prev) eqn:Hlb; [|done]. cbn [andb] in Hm.
    destruct (5 <=? length (take_handle 32 rest))%nat eqn:Hlen; [|done].
    assert (group = take_handle 32 rest) as -> by congruence.
    apply N.eqb_eq in Hc as ->.
    apply Nat.leb_le in Hlen.
    destruct (take_handle_spec 32 rest) as (post & Heq & Hall & Hle & Hmax).
    exists [], post. cbn [app]. rewrite <- Heq. repeat split; auto.
  - intros (pre & post & -> & Hlb & Hall & [Hge Hle] & Hmax).
    revert prev Hlb. induction pre as [|c pre IH]; intros prev Hlb.
    + change (lookbehind_ok prev = true) in Hlb.
      cbn [app scan_all]. rewrite match_at_cons, N.eqb_refl, Hlb. cbn [andb].
      rewrite (take_handle_unique 32 tok post Hall Hle Hmax).
      apply Nat.leb_le in Hge. rewrite Hge. apply elem_of_cons. by left.
    + rewrite before_cons in Hlb. specialize (IH _ Hlb).
      change ((c :: pre) ++ [AT] ++ tok ++ post)
        with (c :: (pre ++ [AT] ++ tok ++ post)).
      cbn [scan_all].
      destruct (match_at prev (c :: pre ++ [AT] ++ tok ++ post)); [|done].
      apply elem_of_cons. by right.
Qed.

Lemma lookbehind_ok_last (pre : str) :
  lookbehind_ok (before None pre) = true
  ↔ ∀ p, last pre = Some p → is_word_char p = false.
Proof.
  unfold before. destruct (last pre) as [p|]; simpl.
  - rewrite negb_true_iff. split; [by intros H ? [= <-]|by intros H; apply H].
  - split; [by intros _ ? [=]|done].
Qed.

Lemma finditer_mention_in (text tok : str) :
  tok ∈ finditer None 0 text ↔ mention_in text tok.
Proof.
  rewrite finditer_scan_all by constructor.
  rewrite scan_all_spec. unfold mention_in.
  split; intros (pre & post & Heq & Hlb & Hrest); exists pre, post;
    (split; [done|]); (split; [by apply lookbehind_ok_last|done]).
Qed.

(** C3 (amended): for every text, absent or not, the scanner returns
    exactly the set of the lowercased tokens that stand in the text after
    an [@] that no word character precedes, each the longest run of 5 to
    32 characters of [A-Za-z0-9_] there (cut at 32). *)
Theorem extract_mentions_from_text_spec (text : option str) (t : str) :
  t ∈ extract_mentions_from_text text
  ↔ ∃ tok, mention_in (default [] text) tok ∧ t = str_lower tok.
Proof.
  unfold extract_mentions_from_text. rewrite elem_of_list_to_set.
  rewrite list_elem_of_In, in_map_iff. split.
  - intros (tok & <- & Hin). exists tok. split; [|done].
    by apply finditer_mention_in, list_elem_of_In.
  - intros (tok & Hin & ->). exists tok. split; [done|].
    by apply list_elem_of_In, finditer_mention_in.
Qed.

End Scanner.

(** ** Trimming and splitting *)

Lemma lstrip_nonspace (c : char) (s : str) :
  is_space c = false → lstrip (c :: s) = c :: s.
Proof. intros Hc. simpl. by rewrite Hc. Qed.

Lemma lstrip_head (s : str) :
  lstrip s = [] ∨ ∃ c rest, lstrip s = c :: rest ∧ is_space c = false.
Proof.
  induction s as [|c s IH]; [by left|].
  simpl. destruct (is_space c) eqn:Hc; [done|]. right. by exists c, s.
Qed.

Lemma lstrip_idemp (s : str) : lstrip (lstrip s) = lstrip s.
Proof.
  destruct (lstrip_head s) as [->|(c & rest & -> & Hc)]; [done|].
  by apply lstrip_nonspace.
Qed.

Lemma lstrip_snoc_nonspace (s : str) (c : char) :
  is_space c = false → ∃ kept, lstrip (s ++ [c]) = kept ++ [c].
Proof.
  intros Hc. induction s as [|x s IH].
  - exists []. simpl. by rewrite Hc.
  - simpl. destruct (is_space x); [done|]. by exists (x :: s).
Qed.

Lemma rstrip_nonspace (c : char) (s : str) :
  is_space c = false → ∃ kept, rstrip (c :: s) = c :: kept.
Proof.
  intros Hc. unfold rstrip. simpl.
  destruct (lstrip_snoc_nonspace (rev s) c Hc) as [kept ->].
  exists (rev kept). by rewrite rev_app_distr.
Qed.

Lemma rstrip_idemp (s : str) : rstrip (rstrip s) = rstrip s.
Proof. unfold rstrip. by rewrite rev_involutive, lstrip_idemp. Qed.

(** A trimmed string is empty or starts with a character that is not
    whitespace. *)
Lemma strip_head (s : str) :
  strip s = [] ∨ ∃ c rest, strip s = c :: rest ∧ is_space c = false.
Proof.
  unfold strip. destruct (lstrip_head s) as [->|(c & rest & -> & Hc)]; [by left|].
  right. destruct (rstrip_nonspace c rest Hc) as [kept ->]. by exists c, kept.
Qed.

Lemma strip_idemp (s : str) : strip (strip s) = strip s.
Proof.
  destruct (strip_head s) as [->|(c & rest & Heq & Hc)]; [done|].
  unfold strip at 1. rewrite Heq, (lstrip_nonspace c rest Hc), <- Heq.
  unfold strip. apply rstrip_idemp.
Qed.

Lemma split_nonspace (c : char) (s : str) :
  is_space c = false → split (c :: s) ≠ [].
Proof.
  intros Hc. destruct s as [|c' s].
  - simpl. by rewrite Hc.
  - change (split (c :: c' :: s)) with
      (if is_space c then split (c' :: s)
       else if is_space c' then [c] :: split (c' :: s)
       else match split (c' :: s) with
            | w :: ws => (c :: w) :: ws
            | [] => [[c]]
            end).
    rewrite Hc. destruct (is_space c'); [done|].
    by destruct (split (c' :: s)).
Qed.

Section Extraction.
Context `{rt : PyRuntime}.

Lemma safe_str_strip (x : json) : strip (_safe_str x) = _safe_str x.
Proof. destruct x; simpl; try apply strip_idemp. done. Qed.

Lemma safe_str_idemp (x : json) : _safe_str (JStr (_safe_str x)) = _safe_str x.
Proof. apply safe_str_strip. Qed.

(** [parts[0]] is there whenever the name is a trimmed string: splitting a
    name never raises. *)
Lemma split_name_safe_str (x : json) :
  ∃ fn ln, _split_name (_safe_str x) = Some (fn, ln).
Proof.
  unfold _split_name. rewrite safe_str_idemp.
  destruct (nonempty (_safe_str x)) eqn:Hne; simpl; [|by eexists _, _].
  assert (∃ c rest, _safe_str x = c :: rest ∧ is_space c = false)
    as (c & rest & Heq & Hc).
  { destruct x; simpl in *; try done;
      match goal with
      | |- context [strip ?s] =>
        destruct (strip_head s) as [Hs|?]; [by rewrite Hs in Hne|done]
      end. }
  rewrite Heq. pose proof (split_nonspace c rest Hc) as Hsplit.
  destruct (split (c :: rest)) as [|p [|q ps]]; [done|by eexists _, _..].
Qed.

(** On a trimmed name the predicate of the code is the heuristic of the
    specification. *)
Lemma is_deleted_account_heuristic (x : json) (user_id : str) :
  _is_deleted_account (_safe_str x) user_id = deleted_heuristic (_safe_str x).
Proof.
  unfold _is_deleted_account, deleted_heuristic. rewrite safe_str_idemp.
  destruct (contains (utf8 "deleted account") _);
    destruct (contains (utf8 "удал") _ && contains (utf8 "аккаунт") _);
    destruct (bool_decide _); done.
Qed.

(** C9: the deleted-account predicate does not depend on its identifier
    argument: two identifiers give the same answer for a name, and the
    answer is the heuristic on the trimmed name alone. *)
Theorem is_deleted_account_ignores_id (name id1 id2 : str) :
  _is_deleted_account name id1 = _is_deleted_account name id2
  ∧ _is_deleted_account name id1 = deleted_heuristic (strip name).
Proof.
  split; [reflexivity|].
  unfold _is_deleted_account, deleted_heuristic.
  change (_safe_str (JStr name)) with (strip name).
  destruct (contains (utf8 "deleted account") _);
    destruct (contains (utf8 "удал") _ && contains (utf8 "аккаунт") _);
    destruct (bool_decide _); done.
Qed.

(** C1: the key is [id:] and the identifier when there is one, else [u:]
    and the lowercased username when there is one, else [n:] and the
    lowercased first and last names around a bar; hence usernames equal up
    to case give the same key, and so does a same non-empty identifier
    whatever the other fields. *)
Theorem make_user_key_priority (user_id username first_name last_name : str) :
  (user_id ≠ [] →
     _make_user_key user_id username first_name last_name = utf8 "id:" ++ user_id)
  ∧ (user_id = [] → username ≠ [] →
     _make_user_key user_id username first_name last_name
     = utf8 "u:" ++ str_lower username)
  ∧ (user_id = [] → username = [] →
     _make_user_key user_id username first_name last_name
     = utf8 "n:" ++ str_lower first_name ++ utf8 "|" ++ str_lower last_name)
  ∧ (∀ username',
       str_lower username = str_lower username' →
       _make_user_key user_id username first_name last_name
       = _make_user_key user_id username' first_name last_name)
  ∧ (∀ username' first_name' last_name',
       user_id ≠ [] →
       _make_user_key user_id username first_name last_name
       = _make_user_key user_id username' first_name' last_name').
Proof.
  unfold _make_user_key. repeat split.
  - intros Hid. apply nonempty_true in Hid. by rewrite Hid.
  - intros -> Hu. apply nonempty_true in Hu. by rewrite Hu.
  - by intros -> ->.
  - intros username' Hlow. destruct (nonempty user_id); [done|].
    destruct username as [|c u], username' as [|c' u']; simpl; try done.
    + rewrite (proj2 (str_lower_nil []) eq_refl) in Hlow.
      symmetry in Hlow. by apply (proj1 (str_lower_nil _)) in Hlow.
    + rewrite (proj2 (str_lower_nil []) eq_refl) in Hlow.
      by apply (proj1 (str_lower_nil _)) in Hlow.
    + by rewrite Hlow.
  - intros ? ? ? Hid. apply nonempty_true in Hid. by rewrite Hid.
Qed.

(** C2 (amended): a message whose resolved display name matches the
    deleted-account heuristic leaves the participants as they were; the
    identifier is not looked at. *)
Theorem process_message_skips_deleted (export_date : str)
    (m : list (str * json)) (st : participants_dict * gset str) :
  deleted_heuristic (resolve_from_name m) = true →
  process_message export_date (JObj m) st = Some (st.1, message_mentions m st.2).
Proof.
  intros Hdel. unfold process_message.
  assert (_is_deleted_account (resolve_from_name m) (resolve_from_id m) = true)
    as Hcode.
  { unfold resolve_from_name in *. by rewrite is_deleted_account_heuristic. }
  destruct (split_name_safe_str
              (py_or (py_or (py_or (dict_get (utf8 "from") m)
                                   (dict_get (utf8 "actor") m))
                            (dict_get (utf8 "sender") m)) (JStr [])))
    as (fn & ln & Hsplit).
  fold (resolve_from_name m) in Hsplit.
  destruct (negb (nonempty (_safe_str (dict_get (utf8 "first_name") m)))
            && negb (nonempty (_safe_str (dict_get (utf8 "last_name") m)))
            && nonempty (resolve_from_name m)).
  - rewrite Hsplit. simpl. rewrite Hcode.
    by destruct (negb _).
  - simpl. rewrite Hcode. by destruct (negb _).
Qed.

(** C8 (amended): a document that is a dict whose [messages] is missing or
    is not a list gives the export date, no participant and no mention,
    and no exception; a document that is not a dict makes the extractor
    raise. *)
Theorem extract_from_json_no_messages (now : str) (data : json) :
  (∀ doc, data = JObj doc →
          is_list (dict_get (utf8 "messages") doc) = false →
          extract_from_json now data
          = Some (str_or (_safe_str (dict_get (utf8 "export_date") doc)) now,
                  [], ∅))
  ∧ ((∀ doc, data ≠ JObj doc) → extract_from_json now data = None).
Proof.
  split.
  - intros doc -> Hlist. unfold extract_from_json.
    by destruct (dict_get (utf8 "messages") doc).
  - intros Hdata. destruct data; try done. by destruct (Hdata fields).
Qed.

End Extraction.

(** ** Dictionaries *)

Lemma dict_lookup_set (key key' : str) (value : participant) (d : participants_dict) :
  dict_lookup key' (dict_set key value d)
  = if bool_decide (key = key') then Some value else dict_lookup key' d.
Proof.
  induction d as [|[k v] d IH]; simpl.
  - done.
  - destruct (bool_decide_reflect (k = key)) as [->|Hk]; simpl.
    + by destruct (bool_decide (key = key')).
    + rewrite IH. destruct (bool_decide_reflect (k = key')) as [->|Hk']; [|done].
      by rewrite bool_decide_eq_false_2.
Qed.

Lemma dict_lookup_None (key : str) (d : participants_dict) :
  key ∉ map fst d → dict_lookup key d = None.
Proof.
  induction d as [|[k v] d IH]; simpl; [done|]. intros Hnot.
  apply not_elem_of_cons in Hnot as [Hne Hnot].
  rewrite bool_decide_eq_false_2 by done. by apply IH.
Qed.

(** After [d.update(other)] a key of [other] is bound as in [other], any
    other key as in [d]. *)
Lemma dict_lookup_update (key : str) (d other : participants_dict) :
  dict_wf other →
  dict_lookup key (dict_update d other)
  = match dict_lookup key other with
    | Some v => Some v
    | None => dict_lookup key d
    end.
Proof.
  unfold dict_wf, dict_update. revert d.
  induction other as [|[k v] other IH]; intros d Hwf; simpl; [done|].
  simpl in Hwf. apply NoDup_cons in Hwf as [Hk Hwf].
  rewrite IH by done. rewrite dict_lookup_set.
  destruct (bool_decide_reflect (k = key)) as [->|Hne]; [|done].
  by rewrite dict_lookup_None.
Qed.

Lemma dict_set_keys (key : str) (value : participant) (d : participants_dict) :
  map fst (dict_set key value d)
  = if bool_decide (key ∈ map fst d) then map fst d else map fst d ++ [key].
Proof.
  induction d as [|[k v] d IH]; simpl; [done|].
  destruct (bool_decide_reflect (k = key)) as [->|Hk]; simpl.
  - rewrite bool_decide_eq_true_2; [done|]. apply elem_of_cons. by left.
  - rewrite IH. destruct (bool_decide_reflect (key ∈ map fst d)) as [Hin|Hin].
    + rewrite bool_decide_eq_true_2; [done|]. apply elem_of_cons. by right.
    + rewrite bool_decide_eq_false_2; [done|].
      intros [?|?]%elem_of_cons; by subst.
Qed.

Lemma dict_set_wf (key : str) (value : participant) (d : participants_dict) :
  dict_wf d → dict_wf (dict_set key value d).
Proof.
  unfold dict_wf. intros Hwf. rewrite dict_set_keys.
  destruct (bool_decide_reflect (key ∈ map fst d)) as [Hin|Hin]; [done|].
  apply NoDup_app. split; [done|]. split.
  - intros x Hx ->%list_elem_of_singleton. done.
  - apply NoDup_singleton.
Qed.

(** ** The spreadsheet *)









Section Aggregation.
Context `{rt : PyRuntime}.

(** The extractors build dicts. *)
Lemma process_message_wf (export_date : str) (m : json)
    (st st' : participants_dict * gset str) :
  process_message export_date m st = Some st' → dict_wf st.1 → dict_wf st'.1.
Proof.
  unfold process_message. destruct m; try (by intros [= <-]).
  intros Hstep Hwf.
  destruct (if negb _ && negb _ && nonempty _ then _ else _)
    as [[first_name last_name]|]; [|done].
  simpl in Hstep. destruct (negb _); [by injection Hstep as <-|].
  destruct (_is_deleted_account _ _); injection Hstep as <-; [done|].
  by apply dict_set_wf.
Qed.

Lemma for_messages_wf (export_date : str) (messages : list json)
    (st st' : participants_dict * gset str) :
  for_messages export_date messages st = Some st' → dict_wf st.1 → dict_wf st'.1.
Proof.
  revert st. induction messages as [|m messages IH]; intros st; simpl.
  - by intros [= <-].
  - destruct (process_message export_date m st) as [st1|] eqn:Hstep; [|done].
    simpl. intros Hrest Hwf. eapply IH; [done|].
    by eapply process_message_wf.
Qed.

Lemma extract_from_json_wf (now : str) (data : json) (r : extraction) :
  extract_from_json now data = Some r → dict_wf (participants_of r).
Proof.
  unfold extract_from_json. destruct data as [| | | | | |data]; try done.
  destruct (dict_get (utf8 "messages") data) as [| | | | |messages|];
    try (intros [= <-]; by constructor).
  destruct (for_messages _ messages ([], ∅)) as [[participants mentions]|] eqn:Hloop;
    [|done].
  simpl. intros [= <-]. apply (for_messages_wf _ _ _ _ Hloop). constructor.
Qed.

Lemma for_name_tags_wf (export_date : str) (tags : list str)
    (d d' : participants_dict) :
  for_name_tags export_date tags d = Some d' → dict_wf d → dict_wf d'.
Proof.
  revert d. induction tags as [|t tags IH]; intros d; simpl.
  - by intros [= <-].
  - destruct (process_name_tag export_date t d) as [d1|] eqn:Hstep; [|done].
    simpl. intros Hrest Hwf. eapply IH; [done|].
    unfold process_name_tag in Hstep.
    destruct (negb _); [by injection Hstep as <-|].
    destruct (_is_deleted_account _ _); [by injection Hstep as <-|].
    destruct (_split_name _) as [[fn ln]|]; [|done].
    simpl in Hstep. injection Hstep as <-. by apply dict_set_wf.
Qed.

Lemma extract_from_html_wf (now : str) (html : soup) (r : extraction) :
  extract_from_html now html = Some r → dict_wf (participants_of r).
Proof.
  unfold extract_from_html.
  destruct (for_name_tags now (select_from_name html) []) as [d|] eqn:Hloop; [|done].
  simpl. intros [= <-]. apply (for_name_tags_wf _ _ _ _ Hloop). constructor.
Qed.

Lemma extract_file_wf (now : str) (f : upload) (r : extraction) :
  extract_file now f = Some r → dict_wf (participants_of r).
Proof.
  unfold extract_file. destruct (endswith _ _).
  - destruct (json_loads (bytes f)); [|done]. apply extract_from_json_wf.
  - apply extract_from_html_wf.
Qed.

(** The loop of [done] over two files that both parse merges their results
    in upload order. *)
Lemma for_files_merge2 (clock : nat → str) (fa fb : upload) (a b : extraction) :
  extract_file (clock 0%nat) fa = Some a →
  extract_file (clock 1%nat) fb = Some b →
  for_files clock 0 [fa; fb] empty_aggregate = merge [a; b].
Proof. intros Ha Hb. simpl. by rewrite Ha, Hb. Qed.

(** A file that fails to parse is counted and left out of the merge. *)
Lemma for_files_failed (clock : nat → str) (i : nat) (f : upload)
    (files : list upload) (acc : aggregate) :
  extract_file (clock i) f = None →
  for_files clock i (f :: files) acc
  = for_files clock (S i) files
      {| all_participants := all_participants acc;
         all_mentions := all_mentions acc;
         processed := processed acc;
         failed := S (failed acc) |}.
Proof. intros Hf. simpl. by rewrite Hf. Qed.

(** C4: merging is last-write-wins per key in processing order: for a key
    bound by both results, [merge [a; b]] binds it to the record of [b] and
    [merge [b; a]] to the record of [a] (so the two differ when the records
    differ in last name); the mention sets are united. *)
Theorem merge_last_write_wins (a b : extraction) (key : str) (ra rb : participant) :
  dict_wf (participants_of a) → dict_wf (participants_of b) →
  dict_lookup key (participants_of a) = Some ra →
  dict_lookup key (participants_of b) = Some rb →
  dict_lookup key (all_participants (merge [a; b])) = Some rb
  ∧ dict_lookup key (all_participants (merge [b; a])) = Some ra
  ∧ (last_name ra ≠ last_name rb →
     dict_lookup key (all_participants (merge [a; b]))
     ≠ dict_lookup key (all_participants (merge [b; a])))
  ∧ all_mentions (merge [a; b]) = mentions_of a ∪ mentions_of b
  ∧ all_mentions (merge [b; a]) = mentions_of b ∪ mentions_of a.
Proof.
  destruct a as [[da pa] ma], b as [[db pb] mb].
  unfold participants_of, mentions_of. simpl. intros Hwa Hwb Ha Hb.
  assert (dict_lookup key (dict_update (dict_update [] pa) pb) = Some rb) as Hab.
  { by rewrite dict_lookup_update, Hb. }
  assert (dict_lookup key (dict_update (dict_update [] pb) pa) = Some ra) as Hba.
  { by rewrite dict_lookup_update, Ha. }
  repeat split.
  - exact Hab.
  - exact Hba.
  - intros Hdiff. rewrite Hab, Hba. intros [= ->]. done.
  - by rewrite (left_id_L ∅ (∪)).
  - by rewrite (left_id_L ∅ (∪)).
Qed.



End Aggregation.

(** ** More on trimming and names *)

Lemma split_cons2 (c c' : char) (s : str) :
  split (c :: c' :: s) =
  if is_space c then split (c' :: s)
  else if is_space c' then [c] :: split (c' :: s)
  else match split (c' :: s) with
       | w :: ws => (c :: w) :: ws
       | [] => [[c]]
       end.
Proof. done. Qed.

(** The words of [split] are non-empty and free of whitespace. *)
Lemma split_words (s : str) :
  Forall (λ w, w ≠ [] ∧ Forall (λ c, is_space c = false) w) (split s).
Proof.
  induction s as [|c [|c' s] IH].
  - constructor.
  - simpl. destruct (is_space c) eqn:Hc; repeat constructor; done.
  - rewrite split_cons2. destruct (is_space c) eqn:Hc; [done|].
    destruct (is_space c') eqn:Hc'.
    + constructor; [|done]. split; [done|]. by repeat constructor.
    + destruct (split (c' :: s)) as [|w ws].
      * repeat constructor; done.
      * inversion IH as [|? ? [Hw Hws] Hrest]; subst.
        constructor; [|done]. split; [done|]. by constructor.
Qed.

Lemma lstrip_all_space (s : str) :
  lstrip s = [] ↔ Forall (λ c, is_space c = true) s.
Proof.
  induction s as [|c s IH]; simpl.
  - split; [constructor|done].
  - destruct (is_space c) eqn:Hc.
    + rewrite IH. split; [by constructor|by inversion 1].
    + split; [done|]. inversion 1; congruence.
Qed.

Lemma last_rev_head (s : str) : last (rev s) = head s.
Proof. destruct s as [|c s]; [done|]. simpl. apply last_snoc. Qed.

Lemma rstrip_last (s : str) (c : char) :
  last (rstrip s) = Some c → is_space c = false.
Proof.
  unfold rstrip. rewrite last_rev_head.
  destruct (lstrip_head (rev s)) as [->|(c' & rest & -> & Hc')]; [done|].
  by intros [= <-].
Qed.

Section Names.
Context `{rt : PyRuntime}.

(** X1: [_safe_str] gives the empty string for [None], never a string that
    starts or ends with whitespace, and leaves its own results as they
    are. *)
Theorem safe_str_trimmed (x : json) :
  _safe_str JNull = []
  ∧ (∀ c, head (_safe_str x) = Some c → is_space c = false)
  ∧ (∀ c, last (_safe_str x) = Some c → is_space c = false)
  ∧ _safe_str (JStr (_safe_str x)) = _safe_str x.
Proof.
  split; [done|]. split; [|split; [|apply safe_str_idemp]].
  - intros c Hc. rewrite <- safe_str_strip in Hc.
    destruct (strip_head (_safe_str x)) as [Hs|(c' & rest & Hs & Hc')];
      rewrite Hs in Hc; [done|]. by injection Hc as <-.
  - intros c Hc. rewrite <- safe_str_strip in Hc. by eapply rstrip_last.
Qed.

(** The names that [_split_name] gives: none for a blank name, else the
    first word and the other words joined by spaces. *)
Lemma split_name_words (full_name : str) :
  ∃ fn ln,
    _split_name full_name = Some (fn, ln)
    ∧ (strip full_name = [] ∧ fn = [] ∧ ln = []
       ∨ ∃ ps, split (strip full_name) = fn :: ps
               ∧ ln = join [SPACE] ps
               ∧ fn ≠ [] ∧ Forall (λ c, is_space c = false) fn).
Proof.
  unfold _split_name. change (_safe_str (JStr full_name)) with (strip full_name).
  destruct (strip_head full_name) as [Hs|(c & rest & Hs & Hc)]; rewrite Hs.
  - exists [], []. simpl. split; [done|]. by left.
  - simpl nonempty. cbn [negb].
    pose proof (split_nonspace c rest Hc) as Hne.
    pose proof (split_words (c :: rest)) as Hwords.
    destruct (split (c :: rest)) as [|p ps]; [done|].
    inversion Hwords as [|? ? [Hp Hpc] _]; subst.
    destruct ps as [|q ps].
    + exists p, []. split; [done|]. right. by exists [].
    + exists p, (join [SPACE] (q :: ps)). split; [done|]. right.
      by exists (q :: ps).
Qed.

Lemma split_name_some (full_name : str) :
  ∃ fn ln,
    _split_name full_name = Some (fn, ln) ∧ (fn = [] ↔ strip full_name = []).
Proof.
  destruct (split_name_words full_name)
    as (fn & ln & Hsplit & [(Hs & -> & ->)|(ps & Hps & _ & Hfn & _)]).
  - by exists [], [].
  - exists fn, ln. split; [done|]. split; [done|].
    intros Hs. rewrite Hs in Hps. done.
Qed.

(** X2: [_split_name] never raises: for every name it gives a first name
    without whitespace, empty exactly when the name is blank, in which case
    the last name is empty too; otherwise the first name is the first word
    of the name and the last name the other words joined by single
    spaces. *)
Theorem split_name_total (full_name : str) :
  ∃ fn ln,
    _split_name full_name = Some (fn, ln)
    ∧ Forall (λ c, is_space c = false) fn
    ∧ (fn = [] ↔ strip full_name = [])
    ∧ (fn = [] → ln = [])
    ∧ (strip full_name ≠ [] →
       ∃ words, split (strip full_name) = fn :: words ∧ ln = join [SPACE] words).
Proof.
  destruct (split_name_words full_name)
    as (fn & ln & Hsplit & [(Hs & -> & ->)|(ps & Hps & -> & Hfn & Hsp)]).
  - exists [], []. rewrite Hs. split; [done|]. split; [done|]. split; [done|].
    split; [done|]. done.
  - exists fn, (join [SPACE] ps). split; [done|]. split; [done|]. split.
    + split; [done|]. intros Hs. rewrite Hs in Hps. done.
    + split; [done|]. intros _. by exists ps.
Qed.

(** X3: Keys of different tiers never meet, and a key built from an identifier
    determines the identifier: authors with different identifiers are never
    merged, nor an author with an identifier and one without. *)
Theorem make_user_key_tiers (id1 u1 f1 l1 id2 u2 f2 l2 : str) :
  _make_user_key id1 u1 f1 l1 = _make_user_key id2 u2 f2 l2 →
  id1 = id2
  ∧ (id1 = [] → (u1 = [] ↔ u2 = []))
  ∧ (id1 = [] → u1 ≠ [] → str_lower u1 = str_lower u2).
Proof.
  unfold _make_user_key.
  assert (utf8 "id:" = [105; 100; 58]%N) as -> by done.
  assert (utf8 "u:" = [117; 58]%N) as -> by done.
  assert (utf8 "n:" = [110; 58]%N) as -> by done.
  destruct id1 as [|a id1], id2 as [|b id2]; simpl.
  - destruct u1 as [|x u1], u2 as [|y u2]; simpl; try done.
    intros [= Hlow]. by rewrite Hlow.
  - destruct u1; simpl; done.
  - destruct u2; simpl; done.
  - intros [= -> ->]. done.
Qed.

(** A text without any [@] has no mention. *)
Lemma finditer_no_at (s : str) (prev : option char) (skip : nat) :
  AT ∉ s → finditer prev skip s = [].
Proof.
  revert prev skip. induction s as [|c s IH]; intros prev skip Hat; [done|].
  apply not_elem_of_cons in Hat as [Hc Hat]. cbn [finditer].
  destruct skip; [|by apply IH].
  rewrite match_at_not_at by done. by apply IH.
Qed.

(** X4: A text that holds no [@] gives the empty set of mentions. *)
Theorem extract_mentions_no_at (text : str) :
  AT ∉ text → extract_mentions_from_text (Some text) = ∅.
Proof.
  intros Hat. unfold extract_mentions_from_text. simpl.
  by rewrite finditer_no_at.
Qed.

End Names.

(** ** Short replies *)

Lemma chunk_run_fits (limit : Z) (lines : list str) (cur : str) :
  (len cur + len (concat lines) ≤ limit - 50)%Z →
  chunk_run limit lines ([], cur) = chunk_finish ([], cur ++ concat lines).
Proof.
  revert cur. induction lines as [|line lines IH]; intros cur Hfit.
  - rewrite chunk_run_nil. simpl. by rewrite app_nil_r.
  - simpl in Hfit. rewrite len_app in Hfit. rewrite chunk_run_cons.
    pose proof (len_nonneg (concat lines)).
    assert ((len cur + len line >? limit - 50)%Z = false) as -> by lia.
    rewrite IH by (rewrite len_app; lia). simpl. by rewrite <- app_assoc.
Qed.

(** X5: A text within the budget is sent as one chunk, unchanged; an empty text
    gives no chunk at all. *)
Theorem chunk_text_short (text : str) (limit : Z) :
  chunk_text [] limit = []
  ∧ (text ≠ [] → (len text ≤ limit - 50)%Z → chunk_text text limit = [text]).
Proof.
  split; [done|]. intros Hne Hfit. rewrite chunk_text_run, chunk_run_fits.
  - simpl. rewrite splitlines_concat. apply nonempty_true in Hne. by rewrite Hne.
  - rewrite splitlines_concat. change (len (@nil char)) with 0%Z. lia.
Qed.

(** ** What the extractors store *)

Lemma dict_set_elem (key : str) (value : participant) (d : participants_dict)
    (k : str) (v : participant) :
  (k, v) ∈ dict_set key value d → (k, v) = (key, value) ∨ (k, v) ∈ d.
Proof.
  induction d as [|[k0 v0] d IH]; simpl.
  - intros ->%list_elem_of_singleton. by left.
  - destruct (bool_decide_reflect (k0 = key)) as [->|Hne].
    + intros [->|Hin]%elem_of_cons; [by left|]. right. apply elem_of_cons. by right.
    + intros [->|Hin]%elem_of_cons.
      * right. apply elem_of_cons. by left.
      * destruct (IH Hin) as [?|?]; [by left|]. right. apply elem_of_cons. by right.
Qed.

Lemma dict_set_length (key : str) (value : participant) (d : participants_dict) :
  (length d ≤ length (dict_set key value d) ≤ S (length d))%nat.
Proof.
  induction d as [|[k0 v0] d IH]; simpl; [lia|].
  destruct (bool_decide (k0 = key)); simpl; lia.
Qed.

Section Records.
Context `{rt : PyRuntime}.

Lemma split_name_strip (s : str) : _split_name (strip s) = _split_name s.
Proof.
  unfold _split_name. change (_safe_str (JStr ?x)) with (strip x).
  by rewrite strip_idemp.
Qed.

Lemma message_mentions_union (m : list (str * json)) (mentions : gset str) :
  message_mentions m mentions = mentions ∪ message_mentions m ∅.
Proof.
  unfold message_mentions.
  destruct (dict_get (utf8 "text") m); try (by rewrite (right_id_L ∅ (∪)));
    by rewrite (left_id_L ∅ (∪)).
Qed.

(** One turn of the loop over the messages: the mentions of the message are
    added, and either the participants stay or one record is stored. *)
Lemma process_message_inv (date : str) (m : list (str * json))
    (st : participants_dict * gset str) :
  ∃ participants,
    process_message date (JObj m) st = Some (participants, message_mentions m st.2)
    ∧ (participants = st.1
       ∨ ∃ key rec, participants = dict_set key rec st.1
                    ∧ stored_from date m key rec).
Proof.
  unfold process_message.
  set (from_name := resolve_from_name m).
  set (from_id := resolve_from_id m).
  set (user := resolve_username m).
  set (first0 := _safe_str (dict_get (utf8 "first_name") m)).
  set (last0 := _safe_str (dict_get (utf8 "last_name") m)).
  destruct (split_name_some from_name) as (fn & ln & Hsplit & Hfn).
  assert (strip from_name = from_name) as Hstrip by apply safe_str_strip.
  rewrite Hstrip in Hfn.
  assert (_is_deleted_account from_name from_id = deleted_heuristic from_name)
    as Hdel by apply is_deleted_account_heuristic.
  destruct (negb (nonempty first0) && negb (nonempty last0) && nonempty from_name)
    eqn:Hbranch.
  - rewrite Hsplit. cbn [mbind option_bind].
    apply andb_true_iff in Hbranch as [[Hf Hl]%andb_true_iff Hn].
    apply negb_true_iff, nonempty_false in Hf, Hl. apply nonempty_true in Hn.
    rewrite Hf, Hl. unfold str_or at 1 2. cbn [nonempty].
    assert (fn ≠ []) as Hfn' by (intros H; by apply Hfn in H).
    destruct (negb _); [by eexists; split; [|left]|].
    rewrite Hdel. destruct (deleted_heuristic from_name) eqn:Hd;
      [by eexists; split; [|left]|].
    eexists. split; [done|]. right. eexists _, _. split; [done|].
    repeat split; auto.
  - cbn [mbind option_bind].
    destruct (negb (nonempty (str_or from_id _))) eqn:Hany;
      [by eexists; split; [|left]|].
    rewrite Hdel. destruct (deleted_heuristic from_name) eqn:Hd;
      [by eexists; split; [|left]|].
    eexists. split; [done|]. right. eexists _, _. split; [done|].
    repeat split; auto. cbn [username first_name last_name].
    apply negb_false_iff in Hany. fold from_id.
    destruct (decide (from_id = [])) as [Hi|Hi]; [|by left].
    destruct (decide (user = [])) as [Hu|Hu]; [|by right; left].
    destruct (decide (first0 = [])) as [Hf|Hf]; [|by right; right; left].
    destruct (decide (last0 = [])) as [Hl|Hl]; [|by right; right; right].
    rewrite Hi, Hu, Hf, Hl in Hany. rewrite Hf, Hl in Hbranch.
    unfold str_or in Hany. simpl in Hany, Hbranch. by rewrite Hany in Hbranch.
Qed.

Lemma process_message_not_dict (date : str) (m : json)
    (st : participants_dict * gset str) :
  (∀ fields, m ≠ JObj fields) → process_message date m st = Some st.
Proof. intros Hm. destruct m; try done. by destruct (Hm fields). Qed.

(** The loop over the messages never raises; it stores only records of its
    messages and gathers exactly their mentions. *)
Lemma for_messages_inv (date : str) (messages : list json)
    (st : participants_dict * gset str) :
  ∃ st',
    for_messages date messages st = Some st'
    ∧ (length st'.1 ≤ length st.1 + length messages)%nat
    ∧ (∀ key rec, (key, rec) ∈ st'.1 →
         (key, rec) ∈ st.1
         ∨ ∃ m, JObj m ∈ messages ∧ stored_from date m key rec)
    ∧ (∀ t, t ∈ st'.2 ↔
         t ∈ st.2 ∨ ∃ m, JObj m ∈ messages ∧ t ∈ message_mentions m ∅).
Proof.
  revert st. induction messages as [|m messages IH]; intros st.
  - exists st. split; [done|]. split; [simpl; lia|]. split; [by left|].
    intros t. split; [by left|]. intros [?|(m & Hm & _)]; [done|].
    by apply elem_of_nil in Hm.
  - assert (∃ st1, process_message date m st = Some st1
              ∧ (length st1.1 ≤ S (length st.1))%nat
              ∧ (∀ key rec, (key, rec) ∈ st1.1 →
                   (key, rec) ∈ st.1
                   ∨ ∃ f, m = JObj f ∧ stored_from date f key rec)
              ∧ (∀ t, t ∈ st1.2 ↔
                   t ∈ st.2 ∨ ∃ f, m = JObj f ∧ t ∈ message_mentions f ∅))
      as (st1 & Hstep & Hlen1 & Hrec1 & Hmen1).
    { assert ((∃ f, m = JObj f) ∨ (∀ f, m ≠ JObj f)) as [[f ->]|Hnot].
      { destruct m; try (by right). left. by eexists. }
      - destruct (process_message_inv date f st) as (ps & Hstep & Hps).
        eexists. split; [exact Hstep|]. simpl. split; [|split].
        + destruct Hps as [->|(key & rec & -> & _)]; [lia|].
          apply dict_set_length.
        + intros key rec Hin. destruct Hps as [->|(k & r & -> & Hst)]; [by left|].
          apply dict_set_elem in Hin as [[= -> ->]|Hin]; [|by left].
          right. by exists f.
        + intros t. rewrite message_mentions_union, elem_of_union.
          split; (intros [?|Hm]; [by left|right]).
          * by exists f.
          * by destruct Hm as (f' & [= <-] & Hm).
      - exists st. split; [by apply process_message_not_dict|].
        split; [lia|]. split; [by left|]. intros t. split; [by left|].
        intros [?|(f & -> & _)]; [done|]. by destruct (Hnot f). }
    destruct (IH st1) as (st' & Hloop & Hlen & Hrec & Hmen).
    exists st'. simpl. rewrite Hstep. simpl. split; [done|]. split; [lia|]. split.
    + intros key rec Hin. destruct (Hrec key rec Hin) as [Hin1|(f & Hf & Hst)].
      * destruct (Hrec1 key rec Hin1) as [?|(f & -> & Hst)]; [by left|].
        right. exists f. split; [apply elem_of_cons; by left|done].
      * right. exists f. split; [apply elem_of_cons; by right|done].
    + intros t. rewrite Hmen, Hmen1. split.
      * intros [[?|(f & -> & Ht)]|(f & Hf & Ht)]; [by left|right..].
        -- exists f. split; [apply elem_of_cons; by left|done].
        -- exists f. split; [apply elem_of_cons; by right|done].
      * intros [?|(f & [<-|Hf]%elem_of_cons & Ht)]; [by left; left| |].
        -- left. right. by exists f.
        -- right. by exists f.
Qed.

Lemma extract_from_json_some (now : str) (doc : list (str * json)) :
  is_Some (extract_from_json now (JObj doc)).
Proof.
  unfold extract_from_json.
  destruct (dict_get (utf8 "messages") doc) as [| | | | |messages|]; try done.
  destruct (for_messages_inv
              (str_or (_safe_str (dict_get (utf8 "export_date") doc)) now)
              messages ([], ∅)) as ([ps ms] & -> & _).
  done.
Qed.

(** X6: [extract_from_json] raises on a document that is not a dict, and on no
    other: whatever the messages of a dict hold, a result comes back. *)
Theorem extract_from_json_total (now : str) (data : json) :
  is_Some (extract_from_json now data) ↔ ∃ doc, data = JObj doc.
Proof.
  split.
  - intros [r Hr]. destruct data; try done. by eexists.
  - intros [doc ->]. apply extract_from_json_some.
Qed.

(** X7: Every record of a JSON extraction was stored for one of the messages of
    the document, whose author is not a deleted account: its key is built
    from the identifier of that message and the stored names, it carries
    the export date of the result and the bio "N/A", and its identity is
    not empty. *)
Theorem extract_from_json_records (now : str) (data : list (str * json))
    (r : extraction) (key : str) (rec : participant) :
  extract_from_json now (JObj data) = Some r →
  (key, rec) ∈ participants_of r →
  ∃ messages m,
    dict_get (utf8 "messages") data = JList messages
    ∧ JObj m ∈ messages
    ∧ stored_from r.1.1 m key rec.
Proof.
  unfold extract_from_json, participants_of.
  destruct (dict_get (utf8 "messages") data) as [| | | | |messages|];
    try (intros [= <-] Hin; by apply elem_of_nil in Hin).
  destruct (for_messages_inv
              (str_or (_safe_str (dict_get (utf8 "export_date") data)) now)
              messages ([], ∅)) as ([ps ms] & -> & _ & Hrec & _).
  simpl. intros [= <-] Hin. simpl in Hin.
  destruct (Hrec key rec Hin) as [Hnil|(m & Hm & Hst)].
  - by apply elem_of_nil in Hnil.
  - by exists messages, m.
Qed.

(** X8: The mentions of a JSON extraction are exactly those of the texts of its
    messages, whoever wrote them: a message of a deleted account or of
    nobody still gives its mentions. *)
Theorem extract_from_json_mentions (now : str) (data : list (str * json))
    (messages : list json) (r : extraction) (t : str) :
  dict_get (utf8 "messages") data = JList messages →
  extract_from_json now (JObj data) = Some r →
  t ∈ mentions_of r ↔ ∃ m, JObj m ∈ messages ∧ t ∈ message_mentions m ∅.
Proof.
  unfold extract_from_json, mentions_of. intros ->.
  destruct (for_messages_inv
              (str_or (_safe_str (dict_get (utf8 "export_date") data)) now)
              messages ([], ∅)) as ([ps ms] & -> & _ & _ & Hmen).
  simpl. intros [= <-]. simpl. rewrite Hmen. split; [|by right].
  intros [Hempty|?]; [|done]. by apply not_elem_of_empty in Hempty.
Qed.

(** X9: A JSON extraction is dated by the trimmed [export_date] of the
    document, or by the clock when that is empty or missing, and has at
    most one participant for each message. *)
Theorem extract_from_json_count (now : str) (data : list (str * json))
    (messages : list json) (r : extraction) :
  dict_get (utf8 "messages") data = JList messages →
  extract_from_json now (JObj data) = Some r →
  r.1.1 = str_or (_safe_str (dict_get (utf8 "export_date") data)) now
  ∧ (_safe_str (dict_get (utf8 "export_date") data) = [] → r.1.1 = now)
  ∧ (length (participants_of r) ≤ length messages)%nat.
Proof.
  unfold extract_from_json, participants_of. intros ->.
  destruct (for_messages_inv
              (str_or (_safe_str (dict_get (utf8 "export_date") data)) now)
              messages ([], ∅)) as ([ps ms] & -> & Hlen & _).
  simpl. intros [= <-]. simpl. split; [done|]. split; [by intros ->|exact Hlen].
Qed.

(** One turn of the loop over the author elements. *)
Lemma process_name_tag_inv (now tag : str) (ps : participants_dict) :
  ∃ ps',
    process_name_tag now tag ps = Some ps'
    ∧ (ps' = ps
       ∨ ∃ key rec, ps' = dict_set key rec ps ∧ stored_from_tag now tag key rec).
Proof.
  unfold process_name_tag. change (_safe_str (JStr tag)) with (strip tag).
  destruct (nonempty (strip tag)) eqn:Hne; simpl; [|by eexists; split; [|left]].
  apply nonempty_true in Hne.
  replace (_is_deleted_account (strip tag) [])
    with (deleted_heuristic (strip tag))
    by (symmetry; apply (is_deleted_account_heuristic (JStr tag))).
  destruct (deleted_heuristic (strip tag)) eqn:Hdel; [by eexists; split; [|left]|].
  rewrite split_name_strip.
  destruct (split_name_some tag) as (fn & ln & Hsplit & Hfn).
  rewrite Hsplit. simpl. eexists. split; [done|]. right. eexists _, _.
  split; [done|]. unfold stored_from_tag. simpl. repeat split; auto.
  intros H. by apply Hfn in H.
Qed.

Lemma for_name_tags_inv (now : str) (tags : list str) (ps : participants_dict) :
  ∃ ps',
    for_name_tags now tags ps = Some ps'
    ∧ (length ps' ≤ length ps + length tags)%nat
    ∧ (∀ key rec, (key, rec) ∈ ps' →
         (key, rec) ∈ ps ∨ ∃ tag, tag ∈ tags ∧ stored_from_tag now tag key rec).
Proof.
  revert ps. induction tags as [|tag tags IH]; intros ps.
  - exists ps. split; [done|]. split; [simpl; lia|by left].
  - destruct (process_name_tag_inv now tag ps) as (ps1 & Hstep & Hps1).
    destruct (IH ps1) as (ps' & Hloop & Hlen & Hrec).
    exists ps'. simpl. rewrite Hstep. simpl. split; [done|]. split.
    + destruct Hps1 as [->|(k & v & -> & _)]; [lia|].
      pose proof (dict_set_length k v ps). lia.
    + intros key rec Hin. destruct (Hrec key rec Hin) as [Hin1|(t & Ht & Hst)].
      * destruct Hps1 as [->|(k & v & -> & Hst)]; [by left|].
        apply dict_set_elem in Hin1 as [[= -> ->]|?]; [|by left].
        right. exists tag. split; [apply elem_of_cons; by left|done].
      * right. exists t. split; [apply elem_of_cons; by right|done].
Qed.

(** X10: [extract_from_html] never raises; it is dated by the clock, has at most
    one participant for each author element, and every record was stored
    for an author element that is neither blank nor a deleted account: no
    username, the names split from the element, the key [n:first|last] in
    lowercase, the bio "N/A". *)
Theorem extract_from_html_records (now : str) (html : soup) :
  ∃ ps ms,
    extract_from_html now html = Some (now, ps, ms)
    ∧ (length ps ≤ length (select_from_name html))%nat
    ∧ (∀ key rec, (key, rec) ∈ ps →
         ∃ tag, tag ∈ select_from_name html ∧ stored_from_tag now tag key rec).
Proof.
  unfold extract_from_html.
  destruct (for_name_tags_inv now (select_from_name html) [])
    as (ps & -> & Hlen & Hrec).
  eexists ps, _. simpl. split; [done|]. split; [exact Hlen|].
  intros key rec Hin. destruct (Hrec key rec Hin) as [Hnil|?]; [|done].
  by apply elem_of_nil in Hnil.
Qed.

Lemma html_mentions_fold (texts : list str) (acc : gset str) (t : str) :
  t ∈ fold_left
        (λ mentions tag,
           mentions ∪ extract_mentions_from_text (Some (_safe_str (JStr tag))))
        texts acc
  ↔ t ∈ acc
    ∨ ∃ tag, tag ∈ texts ∧ t ∈ extract_mentions_from_text (Some (strip tag)).
Proof.
  revert acc. induction texts as [|tag texts IH]; intros acc; simpl.
  - split; [by left|]. intros [?|(tag & Htag & _)]; [done|].
    by apply elem_of_nil in Htag.
  - rewrite IH, elem_of_union. change (_safe_str (JStr tag)) with (strip tag).
    split.
    + intros [[?|Ht]|(tag' & Htag & Ht)]; [by left|right..].
      * exists tag. split; [apply elem_of_cons; by left|done].
      * exists tag'. split; [apply elem_of_cons; by right|done].
    + intros [?|(tag' & [->|Htag]%elem_of_cons & Ht)]; [by left; left| |].
      * left. by right.
      * right. by exists tag'.
Qed.

(** X11: The mentions of an HTML extraction are exactly those of the trimmed
    texts of the message bodies, whatever the author elements are. *)
Theorem extract_from_html_mentions (now : str) (html : soup) (r : extraction)
    (t : str) :
  extract_from_html now html = Some r →
  t ∈ mentions_of r
  ↔ ∃ tag, tag ∈ select_text html
           ∧ t ∈ extract_mentions_from_text (Some (strip tag)).
Proof.
  unfold extract_from_html, mentions_of.
  destruct (for_name_tags now (select_from_name html) []); [|done].
  simpl. intros [= <-]. simpl. rewrite html_mentions_fold.
  split; [|by right]. intros [Hempty|?]; [|done].
  by apply not_elem_of_empty in Hempty.
Qed.

End Records.

(** ** Merging the files *)

Lemma dict_update_wf (d other : participants_dict) :
  dict_wf d → dict_wf (dict_update d other).
Proof.
  unfold dict_update. revert d.
  induction other as [|[k v] other IH]; intros d Hwf; simpl; [done|].
  by apply IH, dict_set_wf.
Qed.

Section Merging.
Context `{rt : PyRuntime}.

(** [extract_from_html] always gives a result. *)
Lemma extract_from_html_some (now : str) (html : soup) :
  is_Some (extract_from_html now html).
Proof.
  unfold extract_from_html.
  by destruct (for_name_tags_inv now (select_from_name html) []) as (ps & -> & _).
Qed.

Lemma extract_file_readable (now : str) (f : upload) :
  readable f → is_Some (extract_file now f).
Proof.
  unfold extract_file, readable.
  destruct (endswith (utf8 ".json") (name f)); [|intros _; apply extract_from_html_some].
  intros [doc ->]; [done|]. apply extract_from_json_some.
Qed.

(** X12: A file fails in [done] exactly when it is named [.json] and its content
    does not decode to a JSON object; an HTML file never fails. *)
Theorem extract_file_fails_iff (now : str) (f : upload) :
  extract_file now f = None ↔ ¬ readable f.
Proof.
  unfold extract_file, readable.
  destruct (endswith (utf8 ".json") (name f)).
  - destruct (json_loads (bytes f)) as [data|] eqn:Hloads; simpl.
    + split.
      * intros Hnone [doc Hdoc]; [done|]. injection Hdoc as ->.
        destruct (extract_from_json_some now doc) as [r Hr]. congruence.
      * intros Hnot. destruct data; try done.
        destruct Hnot. intros _. by eexists.
    + split; [|done]. intros _ [doc Hdoc]; done.
  - split.
    + intros Hnone. destruct (extract_from_html_some now (beautiful_soup (bytes f)))
        as [r Hr]. congruence.
    + intros Hnot. destruct Hnot. intros [=].
Qed.

Lemma merge_fold_fields (results : list extraction) (acc : aggregate) :
  all_participants (fold_left merge_result results acc)
  = fold_left (λ d r, dict_update d (participants_of r)) results (all_participants acc)
  ∧ all_mentions (fold_left merge_result results acc)
    = fold_left (λ m r, m ∪ mentions_of r) results (all_mentions acc)
  ∧ processed (fold_left merge_result results acc)
    = (processed acc + length results)%nat
  ∧ failed (fold_left merge_result results acc) = failed acc.
Proof.
  revert acc. induction results as [|[[d ps] ms] results IH]; intros acc.
  - simpl. repeat split; lia.
  - cbn [fold_left].
    destruct (IH (merge_result acc (d, ps, ms))) as (H1 & H2 & H3 & H4).
    rewrite H1, H2, H3, H4. simpl. repeat split; lia.
Qed.

Lemma for_files_fields (clock : nat → str) (files : list upload) (i : nat)
    (acc : aggregate) :
  all_participants (for_files clock i files acc)
  = fold_left (λ d r, dict_update d (participants_of r)) (successes clock i files)
      (all_participants acc)
  ∧ all_mentions (for_files clock i files acc)
    = fold_left (λ m r, m ∪ mentions_of r) (successes clock i files)
        (all_mentions acc)
  ∧ processed (for_files clock i files acc)
    = (processed acc + length (successes clock i files))%nat
  ∧ (failed (for_files clock i files acc) + length (successes clock i files)
     = failed acc + length files)%nat.
Proof.
  revert i acc. induction files as [|f files IH]; intros i acc.
  - simpl. repeat split; lia.
  - cbn [for_files successes].
    destruct (extract_file (clock i) f) as [[[d ps] ms]|].
    + destruct (IH (S i) (merge_result acc (d, ps, ms))) as (H1 & H2 & H3 & H4).
      rewrite H1, H2, H3. simpl in *. repeat split; lia.
    + match goal with
      | |- context [for_files clock (S i) files ?a] =>
        destruct (IH (S i) a) as (H1 & H2 & H3 & H4)
      end.
      rewrite H1, H2, H3. simpl in *. repeat split; lia.
Qed.

(** X13: The loop of [done] merges, in upload order, the results of the files
    that parse, and counts every other file as failed, whatever its place:
    a failure does not stop the files after it. *)
Theorem for_files_successes (clock : nat → str) (files : list upload) :
  let results := successes clock 0 files in
  for_files clock 0 files empty_aggregate
  = {| all_participants := all_participants (merge results);
       all_mentions := all_mentions (merge results);
       processed := length results;
       failed := length files - length results |}.
Proof.
  intros results. unfold merge.
  destruct (merge_fold_fields results empty_aggregate) as (Hp & Hm & _).
  destruct (for_files_fields clock files 0 empty_aggregate) as (Hp' & Hm' & Hn & Hf).
  fold results in Hp', Hm', Hn, Hf. rewrite Hp, Hm, <- Hp', <- Hm'.
  destruct (for_files clock 0 files empty_aggregate). simpl in *.
  f_equal; lia.
Qed.

(** X14: Every file is counted once, as processed or as failed. *)
Theorem for_files_counts (clock : nat → str) (files : list upload) :
  let acc := for_files clock 0 files empty_aggregate in
  (processed acc + failed acc = length files)%nat
  ∧ (Forall readable files → failed acc = 0%nat ∧ processed acc = length files).
Proof.
  intros acc. subst acc.
  assert (∀ i fs, Forall readable fs →
                  length (successes clock i fs) = length fs) as Hall.
  { intros i fs Hfs. revert i. induction Hfs as [|f fs Hf _ IH]; intros i; [done|].
    simpl. destruct (extract_file_readable (clock i) f Hf) as [r ->].
    simpl. by rewrite IH. }
  destruct (for_files_fields clock files 0 empty_aggregate) as (_ & _ & Hn & Hf).
  simpl in *. split; [lia|]. intros Hok. specialize (Hall 0%nat files Hok). lia.
Qed.

(** X15: The aggregate binds each key once: the total reported by [done] is the
    number of distinct keys. *)
Theorem for_files_wf (clock : nat → str) (files : list upload) :
  dict_wf (all_participants (for_files clock 0 files empty_aggregate)).
Proof.
  destruct (for_files_fields clock files 0 empty_aggregate) as (-> & _).
  generalize (successes clock 0 files). simpl.
  assert (dict_wf []) as Hnil by constructor. revert Hnil.
  generalize (@nil (str * participant)).
  intros d Hd results. revert d Hd.
  induction results as [|r results IH]; intros d Hd; simpl; [done|].
  by apply IH, dict_update_wf.
Qed.

(** X16: Last write wins over any number of results: a key is bound as in the
    last result that binds it. *)
Theorem merge_last_binding (earlier later : list extraction) (r : extraction)
    (key : str) (rec : participant) :
  dict_wf (participants_of r) →
  Forall (λ x, dict_wf (participants_of x)) later →
  dict_lookup key (participants_of r) = Some rec →
  Forall (λ x, dict_lookup key (participants_of x) = None) later →
  dict_lookup key (all_participants (merge (earlier ++ r :: later))) = Some rec.
Proof.
  intros Hwf Hwfs Hr Hafter. unfold merge.
  destruct (merge_fold_fields (earlier ++ r :: later) empty_aggregate) as (-> & _).
  rewrite fold_left_app. cbn [fold_left].
  set (d0 := fold_left _ earlier _). clearbody d0.
  assert (dict_lookup key (dict_update d0 (participants_of r)) = Some rec) as Hd
    by (by rewrite dict_lookup_update, Hr).
  revert Hd. set (d := dict_update d0 (participants_of r)). clearbody d. clear d0.
  revert d. induction later as [|x later IH]; intros d Hd; simpl; [done|].
  inversion Hwfs; inversion Hafter; subst. apply IH; [done..|].
  rewrite dict_lookup_update by done.
  match goal with H : dict_lookup key (participants_of x) = None |- _ => by rewrite H end.
Qed.

End Merging.

(** ** The order of the rows *)

Lemma str_ltb_irrefl (a : str) : str_ltb a a = false.
Proof.
  induction a as [|x a IH]; simpl; [done|].
  by rewrite N.ltb_irrefl, N.eqb_refl, IH.
Qed.

Lemma str_ltb_trans (a b c : str) :
  str_ltb a b = true → str_ltb b c = true → str_ltb a c = true.
Proof.
  revert b c. induction a as [|x a IH]; intros [|y b] [|z c]; simpl; try done.
  destruct (N.ltb_spec x y), (N.eqb_spec x y), (N.ltb_spec y z),
    (N.eqb_spec y z), (N.ltb_spec x z), (N.eqb_spec x z);
    simpl; try done; try lia.
  apply IH.
Qed.

Lemma key_ltb_spec (a b : str * str * str) :
  key_ltb a b = true ↔
  str_ltb a.1.1 b.1.1 = true
  ∨ a.1.1 = b.1.1
    ∧ (str_ltb a.1.2 b.1.2 = true
       ∨ a.1.2 = b.1.2 ∧ str_ltb a.2 b.2 = true).
Proof.
  destruct a as [[a1 a2] a3], b as [[b1 b2] b3]. simpl.
  rewrite orb_true_iff, andb_true_iff, orb_true_iff, andb_true_iff,
    !bool_decide_eq_true.
  done.
Qed.

Lemma key_ltb_irrefl (a : str * str * str) : key_ltb a a = false.
Proof.
  apply not_true_is_false. rewrite key_ltb_spec.
  rewrite !str_ltb_irrefl. intros [H|[_ [H|[_ H]]]]; done.
Qed.

Lemma key_ltb_trans (a b c : str * str * str) :
  key_ltb a b = true → key_ltb b c = true → key_ltb a c = true.
Proof.
  rewrite !key_ltb_spec.
  intros [H1|[E1 [H2|[E2 H3]]]] [K1|[F1 [K2|[F2 K3]]]].
  - left. by eapply str_ltb_trans.
  - left. by rewrite <- F1.
  - left. by rewrite <- F1.
  - left. by rewrite E1.
  - right. split; [congruence|]. left. by eapply str_ltb_trans.
  - right. split; [congruence|]. left. by rewrite <- F2.
  - left. by rewrite E1.
  - right. split; [congruence|]. left. by rewrite E2.
  - right. split; [congruence|]. right. split; [congruence|].
    by eapply str_ltb_trans.
Qed.

Lemma key_ltb_asym (a b : str * str * str) :
  key_ltb a b = true → key_ltb b a = false.
Proof.
  intros Hab. apply not_true_is_false. intros Hba.
  pose proof (key_ltb_trans a b a Hab Hba) as H.
  by rewrite key_ltb_irrefl in H.
Qed.

Section Rows.
Context `{rt : PyRuntime}.

Lemma insert_row_perm (r : participant) (sorted : list participant) :
  insert_row r sorted ≡ₚ r :: sorted.
Proof.
  induction sorted as [|x sorted IH]; cbn [insert_row]; [done|].
  destruct (key_ltb (row_key r) (row_key x)); [reflexivity|].
  rewrite IH. apply Permutation_swap.
Qed.

Lemma insert_row_sorted (r : participant) (sorted : list participant) :
  rows_sorted sorted → rows_sorted (insert_row r sorted).
Proof.
  induction sorted as [|x sorted IH]; cbn [insert_row rows_sorted].
  - intros _. split; [constructor|done].
  - intros [Hx Hs]. destruct (key_ltb (row_key r) (row_key x)) eqn:Hlt;
      cbn [rows_sorted].
    + split; [|done]. constructor; [by apply key_ltb_asym|].
      eapply Forall_impl; [exact Hx|]. cbn beta. intros y Hy.
      apply not_true_is_false. intros Hyr.
      pose proof (key_ltb_trans _ _ _ Hyr Hlt). congruence.
    + split; [|by apply IH].
      rewrite insert_row_perm. by constructor.
Qed.


(** X17: The rows handed to the rendering are the records of the participants,
    each once, in ascending order of (username, first name, last name) in
    lowercase. *)
Theorem sort_rows_sorted (rows : list participant) :
  sort_rows rows ≡ₚ rows ∧ rows_sorted (sort_rows rows).
Proof.
  unfold sort_rows.
  assert (∀ acc, rows_sorted acc →
            fold_left (λ sorted r, insert_row r sorted) rows acc ≡ₚ acc ++ rows
            ∧ rows_sorted (fold_left (λ sorted r, insert_row r sorted) rows acc))
    as H.
  { induction rows as [|r rows IH]; intros acc Hacc; simpl.
    - by rewrite app_nil_r.
    - destruct (IH (insert_row r acc)) as [Hperm Hsorted].
      { by apply insert_row_sorted. }
      split; [|done]. rewrite Hperm, insert_row_perm. cbn [app].
      apply Permutation_middle. }
  by apply (H []).
Qed.

(** X18: In the inline list every participant is shown once, in the order of the
    rows: with its username after an [@] when it has one, else by its
    name. *)
Theorem split_rows_partition (rows : list participant) :
  split_rows rows
  = (map (λ r, AT :: _safe_str (JStr (username r))) (filter has_username rows),
     map shown_name (filter (λ r, negb (has_username r)) rows)).
Proof.
  unfold split_rows.
  match goal with |- fold_left ?f rows _ = _ => set (step := f) end.
  assert (∀ wu nu,
            fold_left step rows (wu, nu)
            = (wu ++ map (λ r, AT :: _safe_str (JStr (username r)))
                       (filter has_username rows),
               nu ++ map shown_name (filter (λ r, negb (has_username r)) rows)))
    as H.
  { induction rows as [|r rows IH]; intros wu nu.
    - simpl. by rewrite !app_nil_r.
    - cbn [fold_left].
      assert (step (wu, nu) r
              = if has_username r
                then (wu ++ [AT :: _safe_str (JStr (username r))], nu)
                else (wu, nu ++ [shown_name r])) as -> by done.
      destruct (has_username r) eqn:Hu; rewrite IH.
      + rewrite filter_cons_True by (cbn beta; rewrite Hu; simpl; tauto).
        rewrite (filter_cons_False _ r) by (cbn beta; rewrite Hu; simpl; tauto).
        cbn [map]. by rewrite <- app_assoc.
      + rewrite filter_cons_False by (cbn beta; rewrite Hu; simpl; tauto).
        rewrite (filter_cons_True _ r) by (cbn beta; rewrite Hu; simpl; tauto).
        cbn [map]. by rewrite <- app_assoc. }
  apply (H [] []).
Qed.


End Rows.

(** ** The session *)

Section Session.
Context `{rt : PyRuntime}.

(** X20: An upload leaves the files of the session as they are or adds one file
    at their end, and it adds one only below the cap, when the document
    could be fetched, under its lowercased name ending in [.json] or
    [.html], and, for [.json], when the content decodes. *)
Theorem handle_document_outcome (files : list upload) (doc : option Document) :
  (handle_document files doc).1 = files
  ∨ ∃ d f,
      doc = Some d
      ∧ (handle_document files doc).1 = files ++ [f]
      ∧ (len files < MAX_FILES)%Z
      ∧ fetched d = inr (bytes f)
      ∧ name f = str_lower (match file_name d with
                            | Some n => str_or n (utf8 "upload")
                            | None => utf8 "upload"
                            end)
      ∧ (endswith (utf8 ".json") (name f) = true
         ∨ endswith (utf8 ".html") (name f) = true)
      ∧ (endswith (utf8 ".json") (name f) = true → is_Some (json_loads (bytes f))).
Proof.
  unfold handle_document. destruct doc as [d|]; [|by left].
  destruct (len files >=? MAX_FILES)%Z eqn:Hcap; [by left|].
  remember (str_lower _) as filename eqn:Hname.
  destruct (endswith (utf8 ".json") filename) eqn:Hjson;
    destruct (endswith (utf8 ".html") filename) eqn:Hhtml; simpl;
    try (by left);
    destruct (fetched d) as [e|raw] eqn:Hfetch; try (by left).
  - destruct (bool_decide_reflect (is_Some (json_loads raw))) as [Hok|Hbad];
      simpl; [|by left].
    right. eexists d, _. simpl. repeat split; auto. lia.
  - destruct (bool_decide_reflect (is_Some (json_loads raw))) as [Hok|Hbad];
      simpl; [|by left].
    right. eexists d, _. simpl. repeat split; auto. lia.
  - right. eexists d, _. simpl. repeat split; auto; [lia|simpl; congruence].
Qed.

Lemma session_ok_snoc (files : list upload) (f : upload) :
  session_ok files → (len files < MAX_FILES)%Z →
  (endswith (utf8 ".json") (name f) = true
   ∨ endswith (utf8 ".html") (name f) = true) →
  (endswith (utf8 ".json") (name f) = true → is_Some (json_loads (bytes f))) →
  session_ok (files ++ [f]).
Proof.
  intros [Hlen Hall] Hcap Hsuffix Hjson. split.
  - rewrite len_app. unfold len at 2. simpl. lia.
  - apply Forall_app. split; [done|]. constructor; [by split|constructor].
Qed.

Lemma handle_document_ok (files : list upload) (doc : option Document) :
  session_ok files → session_ok (handle_document files doc).1.
Proof.
  intros Hok. unfold handle_document. destruct doc as [d|]; [|done].
  destruct (len files >=? MAX_FILES)%Z eqn:Hcap; [done|].
  remember (str_lower _) as filename eqn:Hname.
  destruct (endswith (utf8 ".json") filename) eqn:Hjson;
    destruct (endswith (utf8 ".html") filename) eqn:Hhtml; simpl; try done;
    destruct (fetched d) as [e|raw]; try done;
    try (destruct (bool_decide_reflect (is_Some (json_loads raw))); simpl;
         [|done]);
    (apply session_ok_snoc; simpl; [done|lia|auto|auto; congruence]).
Qed.

Lemma done_clears (clock : nat → str) (files : list upload) :
  (done clock files).1.1 = [].
Proof.
  unfold done. destruct files; [done|].
  destruct (len _ =? 0)%Z; [done|]. by destruct (render _ _).
Qed.

Lemma session_ok_nil : session_ok [].
Proof. split; [by vm_compute|constructor]. Qed.

(** X21: Whatever a user sends, in whatever order, the session never holds more
    than [MAX_FILES] files, every file it holds is named [.json] or [.html],
    and every [.json] file it holds decodes; after [/start], [/reset] or
    [/done] it is empty. *)
Theorem session_keeps_ok (events : list event) (files : list upload) :
  (session_ok files → session_ok (session events files))
  ∧ session (events ++ [Start]) files = []
  ∧ session (events ++ [Reset]) files = []
  ∧ (∀ clock, session (events ++ [Done clock]) files = []).
Proof.
  split; [|split; [|split]].
  - unfold session. revert files.
    induction events as [|ev events IH]; intros files Hok; [done|].
    simpl. apply IH. destruct ev as [| |doc|clock]; simpl.
    + apply session_ok_nil.
    + apply session_ok_nil.
    + by apply handle_document_ok.
    + rewrite done_clears. apply session_ok_nil.
  - unfold session. by rewrite fold_left_app.
  - unfold session. by rewrite fold_left_app.
  - intros clock. unfold session. rewrite fold_left_app. apply done_clears.
Qed.

End Session.
(** ** The bot on sample inputs *)

Section Samples.
#[local] Existing Instance basic_runtime.

(** The names that section 8 of the specification lists are filtered, in
    either order of the two Russian words. *)
Example deleted_names :
  _is_deleted_account (utf8 "Deleted Account") [] = true
  ∧ _is_deleted_account (utf8 "deleted account") [] = true
  ∧ _is_deleted_account (utf8 "Удалённый аккаунт") [] = true
  ∧ _is_deleted_account (utf8 "Аккаунт удалён") [] = true
  ∧ _is_deleted_account (utf8 "DELETED") [] = true
  ∧ _is_deleted_account (utf8 "Bob") (utf8 "deleted") = false.
Proof. by vm_compute. Qed.

(** A short export: two authors and a deleted account. *)
Example sample_extraction :
  extract_from_json (sample_clock 0%nat) sample_export
  = Some (utf8 "2024-01-01T00:00:00Z",
          [(utf8 "id:1",
            {| export_date := utf8 "2024-01-01T00:00:00Z"; username := [];
               first_name := utf8 "Ann"; last_name := utf8 "Lee";
               bio := utf8 "N/A" |});
           (utf8 "u:bob",
            {| export_date := utf8 "2024-01-01T00:00:00Z"; username := utf8 "Bob";
               first_name := utf8 "Bob"; last_name := [];
               bio := utf8 "N/A" |})],
          {[ utf8 "bobby" ]}).
Proof. by vm_compute. Qed.

Lemma make_user_key_priority_witness :
  _make_user_key (utf8 "user1") (utf8 "Bob") (utf8 "Bob") (utf8 "Stone")
  = utf8 "id:" ++ utf8 "user1"
  ∧ _make_user_key [] (utf8 "Bob") (utf8 "Bob") (utf8 "Stone")
    = utf8 "u:" ++ str_lower (utf8 "Bob")
  ∧ _make_user_key [] [] (utf8 "Bob") (utf8 "Stone")
    = utf8 "n:" ++ str_lower (utf8 "Bob") ++ utf8 "|" ++ str_lower (utf8 "Stone")
  ∧ _make_user_key [] (utf8 "Bob") (utf8 "Bob") (utf8 "Stone")
    = _make_user_key [] (utf8 "BOB") (utf8 "Bob") (utf8 "Stone")
  ∧ _make_user_key (utf8 "user1") (utf8 "Bob") (utf8 "Bob") (utf8 "Stone")
    = _make_user_key (utf8 "user1") (utf8 "rob") (utf8 "Rob") (utf8 "Roy").
Proof.
  split; [|split; [|split; [|split]]].
  - by apply (proj1 (make_user_key_priority
                       (utf8 "user1") (utf8 "Bob") (utf8 "Bob") (utf8 "Stone"))).
  - by apply (proj1 (proj2 (make_user_key_priority
                              [] (utf8 "Bob") (utf8 "Bob") (utf8 "Stone")))).
  - by apply (proj1 (proj2 (proj2 (make_user_key_priority
                                     [] [] (utf8 "Bob") (utf8 "Stone"))))).
  - by apply (proj1 (proj2 (proj2 (proj2 (make_user_key_priority
                                            [] (utf8 "Bob") (utf8 "Bob") (utf8 "Stone")))))).
  - by apply (proj2 (proj2 (proj2 (proj2 (make_user_key_priority
                                            (utf8 "user1") (utf8 "Bob") (utf8 "Bob") (utf8 "Stone")))))).
Defined.

(** The identifier of a message reads "deleted", its name does not: a
    record is stored under [id:deleted]. *)
Lemma deleted_id_is_stored :
  ¬ skips_deleted_as_stated (utf8 "2024-01-01T00:00:00Z")
      message_with_deleted_id ([], ∅).
Proof.
  intros H. destruct H as [mentions H].
  - right. by vm_compute.
  - vm_compute in H. discriminate H.
Qed.

Lemma process_message_skips_deleted_witness :
  process_message (utf8 "2024-01-01T00:00:00Z")
    (JObj message_from_deleted_account) ([], ∅)
  = Some ([], message_mentions message_from_deleted_account ∅).
Proof.
  apply (process_message_skips_deleted (utf8 "2024-01-01T00:00:00Z")
           message_from_deleted_account ([], ∅)).
  by vm_compute.
Defined.

(** In "@abcdef" the five letters "abcde" follow the [@], yet the scanner
    returns the six letters only. *)
Lemma scan_returns_longest_only : ¬ scan_as_stated (Some (utf8 "@abcdef")).
Proof.
  intros H. specialize (H (utf8 "abcde")). destruct H as [_ H].
  assert (utf8 "abcde" ∈ extract_mentions_from_text (Some (utf8 "@abcdef")))
    as Hin.
  { apply H. exists (utf8 "abcde"). split; [|by vm_compute].
    exists [], (utf8 "f"). split; [by vm_compute|]. split; [by intros ? [=]|].
    split; [|vm_compute; lia]. unfold utf8. simpl. by repeat constructor. }
  unfold extract_mentions_from_text in Hin.
  apply elem_of_list_to_set, list_elem_of_In in Hin. vm_compute in Hin.
  destruct Hin as [Hin|[]]. discriminate Hin.
Qed.

Lemma extract_mentions_from_text_spec_witness :
  utf8 "alice_1" ∈ extract_mentions_from_text (Some (utf8 "ping @Alice_1!")).
Proof.
  apply (proj2 (extract_mentions_from_text_spec
                  (Some (utf8 "ping @Alice_1!")) (utf8 "alice_1"))).
  exists (utf8 "Alice_1"). split; [|by vm_compute].
  exists (utf8 "ping "), (utf8 "!"). split; [by vm_compute|].
  split; [intros p [= <-]; by vm_compute|].
  split; [|split; [vm_compute; lia|right; intros c [= <-]; by vm_compute]].
  unfold utf8. simpl. by repeat constructor.
Defined.

Lemma merge_last_write_wins_witness :
  dict_lookup (utf8 "u:bob") (all_participants (merge [result_a; result_b]))
  = Some (sample_record "Brick")
  ∧ dict_lookup (utf8 "u:bob") (all_participants (merge [result_b; result_a]))
    = Some (sample_record "Stone").
Proof.
  pose proof (merge_last_write_wins result_a result_b (utf8 "u:bob")
                (sample_record "Stone") (sample_record "Brick")) as H.
  destruct H as (Hab & Hba & _).
  - apply NoDup_singleton.
  - apply NoDup_singleton.
  - by vm_compute.
  - by vm_compute.
  - by split.
Defined.



(** A document that is a list parses and has no message collection, and
    the extractor raises on it. *)
Lemma list_document_raises :
  ¬ no_messages_as_stated (sample_clock 0%nat) (JList []).
Proof.
  intros H. destruct H as [date H]; [by intros doc messages [=]|].
  discriminate H.
Qed.

Lemma extract_from_json_no_messages_witness :
  extract_from_json (sample_clock 0%nat) (JObj export_without_list)
  = Some (str_or (_safe_str (dict_get (utf8 "export_date") export_without_list))
                 (sample_clock 0%nat),
          [], ∅)
  ∧ extract_from_json (sample_clock 0%nat) (JList []) = None.
Proof.
  split.
  - apply (proj1 (extract_from_json_no_messages (sample_clock 0%nat)
                    (JObj export_without_list)) export_without_list eq_refl).
    by vm_compute.
  - apply (proj2 (extract_from_json_no_messages (sample_clock 0%nat) (JList []))).
    by intros doc [=].
Defined.

Lemma safe_str_trimmed_witness :
  is_space 65%N = false ∧ is_space 101%N = false.
Proof.
  split.
  - apply (proj1 (proj2 (safe_str_trimmed (JStr (utf8 "  Ann Lee "))))).
    by vm_compute.
  - apply (proj1 (proj2 (proj2 (safe_str_trimmed (JStr (utf8 "  Ann Lee ")))))).
    by vm_compute.
Defined.

Lemma split_name_total_witness :
  ∃ fn ln,
    _split_name (utf8 " Ann  van Lee ") = Some (fn, ln)
    ∧ Forall (λ c, is_space c = false) fn
    ∧ (fn = [] ↔ strip (utf8 " Ann  van Lee ") = [])
    ∧ (fn = [] → ln = [])
    ∧ (strip (utf8 " Ann  van Lee ") ≠ [] →
       ∃ words, split (strip (utf8 " Ann  van Lee ")) = fn :: words
                ∧ ln = join [SPACE] words).
Proof. exact (split_name_total (utf8 " Ann  van Lee ")). Defined.

Lemma make_user_key_tiers_witness :
  utf8 "user1" = utf8 "user1"
  ∧ (utf8 "user1" = [] → utf8 "Bob" = [] ↔ utf8 "rob" = [])
  ∧ (utf8 "user1" = [] → utf8 "Bob" ≠ [] → str_lower (utf8 "Bob") = str_lower (utf8 "rob")).
Proof.
  apply (make_user_key_tiers (utf8 "user1") (utf8 "Bob") (utf8 "Bob") (utf8 "Stone")
           (utf8 "user1") (utf8 "rob") (utf8 "Rob") (utf8 "Roy")).
  by vm_compute.
Defined.

Lemma extract_mentions_no_at_witness :
  extract_mentions_from_text (Some (utf8 "hello, world")) = ∅.
Proof.
  apply (extract_mentions_no_at (utf8 "hello, world")).
  intros H. apply list_elem_of_In in H. vm_compute in H.
  repeat (destruct H as [H|H]; [discriminate H|]). exact H.
Defined.

Lemma chunk_text_short_witness :
  chunk_text (utf8 "hello") TELEGRAM_MSG_LIMIT = [utf8 "hello"].
Proof.
  apply (proj2 (chunk_text_short (utf8 "hello") TELEGRAM_MSG_LIMIT)); by vm_compute.
Defined.

Lemma extract_from_json_records_witness :
  ∃ messages m,
    dict_get (utf8 "messages") export_of_two = JList messages
    ∧ JObj m ∈ messages
    ∧ stored_from result_of_two.1.1 m (utf8 "id:1") record_of_ann.
Proof.
  apply (extract_from_json_records (sample_clock 0%nat) export_of_two
           result_of_two (utf8 "id:1") record_of_ann).
  - vm_compute; reflexivity.
  - apply elem_of_cons. by left.
Defined.

Lemma extract_from_json_mentions_witness :
  utf8 "everyone" ∈ mentions_of result_of_two
  ↔ ∃ m, JObj m ∈ two_messages ∧ utf8 "everyone" ∈ message_mentions m ∅.
Proof.
  apply (extract_from_json_mentions (sample_clock 0%nat) export_of_two
           two_messages result_of_two (utf8 "everyone")).
  - vm_compute; reflexivity.
  - vm_compute; reflexivity.
Defined.

Lemma extract_from_json_count_witness :
  result_of_two.1.1
  = str_or (_safe_str (dict_get (utf8 "export_date") export_of_two))
           (sample_clock 0%nat)
  ∧ (_safe_str (dict_get (utf8 "export_date") export_of_two) = [] →
     result_of_two.1.1 = sample_clock 0%nat)
  ∧ (length (participants_of result_of_two) ≤ length two_messages)%nat.
Proof.
  apply (extract_from_json_count (sample_clock 0%nat) export_of_two
           two_messages result_of_two).
  - vm_compute; reflexivity.
  - vm_compute; reflexivity.
Defined.

Lemma extract_from_html_records_witness :
  ∃ ps ms,
    extract_from_html (sample_clock 0%nat) sample_soup
    = Some (sample_clock 0%nat, ps, ms)
    ∧ (length ps ≤ length (select_from_name sample_soup))%nat
    ∧ (∀ key rec, (key, rec) ∈ ps →
         ∃ tag, tag ∈ select_from_name sample_soup
                ∧ stored_from_tag (sample_clock 0%nat) tag key rec).
Proof. exact (extract_from_html_records (sample_clock 0%nat) sample_soup). Defined.

Lemma extract_from_html_mentions_witness :
  utf8 "bobby" ∈ mentions_of result_of_soup
  ↔ ∃ tag, tag ∈ select_text sample_soup
           ∧ utf8 "bobby" ∈ extract_mentions_from_text (Some (strip tag)).
Proof.
  apply (extract_from_html_mentions (sample_clock 0%nat) sample_soup
           result_of_soup (utf8 "bobby")).
  vm_compute; reflexivity.
Defined.

Lemma for_files_counts_witness :
  failed (for_files sample_clock 0 [export_of_authors 2; empty_export]
            empty_aggregate) = 0%nat
  ∧ processed (for_files sample_clock 0 [export_of_authors 2; empty_export]
                 empty_aggregate)
    = length [export_of_authors 2; empty_export].
Proof.
  apply (proj2 (for_files_counts sample_clock [export_of_authors 2; empty_export])).
  repeat constructor; intros _; by eexists.
Defined.

Lemma merge_last_binding_witness :
  dict_lookup (utf8 "u:bob") (all_participants (merge ([result_a] ++ result_b :: [])))
  = Some (sample_record "Brick").
Proof.
  apply (merge_last_binding [result_a] [] result_b (utf8 "u:bob")
           (sample_record "Brick")).
  - apply NoDup_singleton.
  - constructor.
  - by vm_compute.
  - constructor.
Defined.


(** Fifty authors named "A", U+0001, "B": the summary is sent, the
    spreadsheet is not, and the handler raises. *)
Example control_character_raises :
  done sample_clock [export_of_named_authors 50 name_with_control]
  = ([], [SendTyping; ReplyText (summary_text 1 0 50 0)], true).
Proof. vm_compute; reflexivity. Qed.

Lemma session_keeps_ok_witness :
  session_ok (session [Start; Upload (Some sample_document); Upload None] []).
Proof.
  apply (proj1 (session_keeps_ok [Start; Upload (Some sample_document); Upload None] [])).
  split; [by vm_compute|constructor].
Defined.

(** The document [Result.JSON] is stored as [result.json]. *)
Example upload_is_stored :
  (handle_document [] (Some sample_document)).1
  = [{| name := utf8 "result.json"; bytes := bytes empty_export |}].
Proof. by vm_compute. Qed.

End Samples.
